(** * furtrack-api: a shallow embedding of [src/index.js]

    The client library is a single class, [FurtrackAPI].  Its pure part
    classifies tag strings by prefix; its effectful part builds a request
    path, issues one GET through [fetch] and unwraps the JSON body.

    The development has two layers.  Module [JS] models the fragment of
    ECMAScript the class relies on (strings as sequences of UTF-16 code
    units, property-key ordering, [ToString], [ToBoolean],
    [encodeURIComponent]).  Module [FurtrackAPI] is the class itself,
    one definition per method, with the same names. *)

From Stdlib Require Import ZArith NArith Ascii String List Bool Lia.
From Stdlib Require Import DecimalPos.
From stdpp Require Import base option list gmap.

Set Warnings "-register-all".
Open Scope N_scope.

(** ** The ECMAScript fragment *)

Module JS.

(** A String value is a finite sequence of 16-bit code units. *)
Definition jsstring := list N.

(** Source literals: every character of a literal in [index.js] is ASCII,
    so its code unit is its ASCII code. *)
Fixpoint js (s : string) : jsstring :=
  match s with
  | EmptyString => []
  | String a r => N_of_ascii a :: js r
  end.

Definition code_unit (c : N) : Prop := c < 65536.

(** [String.prototype.startsWith(searchString)] at position 0. *)
Fixpoint startsWith (s searchString : jsstring) {struct searchString} : bool :=
  match searchString, s with
  | [], _ => true
  | _ :: _, [] => false
  | a :: p, b :: r => (a =? b) && startsWith r p
  end.

(** [String.prototype.slice(start)] for a non-negative integer [start]:
    the code units from index [min(start, length)] to the end. *)
Definition slice (s : jsstring) (start : nat) : jsstring := drop start s.

Definition is_digit (c : N) : bool := (48 <=? c) && (c <=? 57).

(** *** Completions

    An abrupt completion carries the thrown value.  The class throws one
    [Error] of its own; the others are the built-in errors of the
    operations it calls. *)

Inductive exn :=
| Error (message : jsstring)
| TypeError
| SyntaxError
| URIError.

Inductive completion (A : Type) :=
| Return (a : A)
| Throw (e : exn).
Arguments Return {A} a.
Arguments Throw {A} e.

#[global] Instance completion_ret : MRet completion := fun _ a => Return a.
#[global] Instance completion_bind : MBind completion := fun _ _ f c =>
  match c with
  | Return a => f a
  | Throw e => Throw e
  end.

(** *** Values

    The values a decoded JSON body can hold, and [undefined].  [VNum z] is
    the Number whose mathematical value is the integer [z]; the model covers
    the integers of magnitude below 2^53, which every page number, id and
    HTTP status is.  [VObj] lists the own properties of an object, each key
    once, in creation order. *)

Inductive value :=
| VUndefined
| VNull
| VBool (b : bool)
| VNum (z : Z)
| VStr (s : jsstring)
| VArr (elements : list value)
| VObj (props : list (jsstring * value)).

Fixpoint uint_units (d : Decimal.uint) : jsstring :=
  match d with
  | Decimal.Nil => []
  | Decimal.D0 r => 48 :: uint_units r
  | Decimal.D1 r => 49 :: uint_units r
  | Decimal.D2 r => 50 :: uint_units r
  | Decimal.D3 r => 51 :: uint_units r
  | Decimal.D4 r => 52 :: uint_units r
  | Decimal.D5 r => 53 :: uint_units r
  | Decimal.D6 r => 54 :: uint_units r
  | Decimal.D7 r => 55 :: uint_units r
  | Decimal.D8 r => 56 :: uint_units r
  | Decimal.D9 r => 57 :: uint_units r
  end.

(** The integers a Number holds exactly and prints in full: those of
    magnitude below 2^53. *)
Definition safe_integer (z : Z) : Prop := (- 2 ^ 53 < z < 2 ^ 53)%Z.

(** [Number::toString] on a safe integer: the decimal numeral, with a
    leading minus sign below zero.  Outside the safe integers the built-in
    rounds the digits or prints an exponent, which this function does not
    follow: a property that depends on the printed form of an arbitrary
    number is stated under [safe_integer]. *)
Definition NumberToString (z : Z) : jsstring :=
  match z with
  | Z0 => js "0"
  | Zpos p => uint_units (Pos.to_uint p)
  | Zneg p => js "-" ++ uint_units (Pos.to_uint p)
  end.

Fixpoint lookup_prop (key : jsstring) (props : list (jsstring * value)) : option value :=
  match props with
  | [] => None
  | (k, v) :: rest => if bool_decide (k = key) then Some v else lookup_prop key rest
  end.

(** [ToString].  An object is converted through [OrdinaryToPrimitive]: the
    inherited [Object.prototype.toString] gives ["[object Object]"], and an
    own data property named [toString] shadows it, after which no method
    yields a primitive.  An array is converted by [Array.prototype.join],
    which prints [undefined] and [null] elements as the empty string. *)
Fixpoint ToString (v : value) : completion jsstring :=
  match v with
  | VUndefined => Return (js "undefined")
  | VNull => Return (js "null")
  | VBool true => Return (js "true")
  | VBool false => Return (js "false")
  | VNum z => Return (NumberToString z)
  | VStr s => Return s
  | VArr elements =>
      (fix join (l : list value) : completion jsstring :=
         match l with
         | [] => Return []
         | e :: rest =>
             s ← match e with
                 | VUndefined | VNull => Return []
                 | _ => ToString e
                 end;
             match rest with
             | [] => Return s
             | _ :: _ => r ← join rest; Return (s ++ js "," ++ r)
             end
         end) elements
  | VObj props =>
      match lookup_prop (js "toString") props with
      | Some _ => Throw TypeError
      | None => Return (js "[object Object]")
      end
  end.

(** [ToBoolean] *)
Definition ToBoolean (v : value) : bool :=
  match v with
  | VUndefined | VNull => false
  | VBool b => b
  | VNum z => negb (z =? 0)%Z
  | VStr s => negb (bool_decide (s = []))
  | VArr _ | VObj _ => true
  end.

(** The property read [v.key], for a key that no built-in prototype and no
    exotic object defines (the five keys [index.js] reads are such): an
    own property of an object, [undefined] on every other value, and a
    [TypeError] on [undefined] and [null]. *)
Definition Get (v : value) (key : jsstring) : completion value :=
  match v with
  | VUndefined | VNull => Throw TypeError
  | VObj props => Return (default VUndefined (lookup_prop key props))
  | _ => Return VUndefined
  end.

(** *** URI encoding *)

Definition uriAlpha (c : N) : bool :=
  ((65 <=? c) && (c <=? 90)) || ((97 <=? c) && (c <=? 122)).

Definition uriMark : jsstring := js "-_.!~*'()".

(** The characters [encodeURIComponent] leaves as they are. *)
Definition uriUnescaped (c : N) : bool :=
  uriAlpha c || is_digit c || existsb (N.eqb c) uriMark.

Definition is_leading_surrogate (c : N) : bool := (0xD800 <=? c) && (c <=? 0xDBFF).
Definition is_trailing_surrogate (c : N) : bool := (0xDC00 <=? c) && (c <=? 0xDFFF).

(** The UTF-8 encoding of a code point. *)
Definition utf8_octets (cp : N) : list N :=
  if cp <? 0x80 then [cp]
  else if cp <? 0x800 then [0xC0 + cp / 64; 0x80 + cp mod 64]
  else if cp <? 0x10000 then
    [0xE0 + cp / 4096; 0x80 + (cp / 64) mod 64; 0x80 + cp mod 64]
  else
    [0xF0 + cp / 262144; 0x80 + (cp / 4096) mod 64;
     0x80 + (cp / 64) mod 64; 0x80 + cp mod 64].

Definition hex_digit (n : N) : N := if n <? 10 then 48 + n else 55 + n.

(** ["%XY"], in upper-case hexadecimal. *)
Definition escape_octet (o : N) : jsstring := [37; hex_digit (o / 16); hex_digit (o mod 16)].

Definition escape_code_point (cp : N) : jsstring :=
  concat (map escape_octet (utf8_octets cp)).

(** The abstract operation [Encode(string, unescapedSet)]: an unescaped
    code unit is copied; otherwise the code point at the position is read
    (a surrogate pair is one code point, an unpaired surrogate is a
    [URIError]) and each octet of its UTF-8 encoding is escaped. *)
Fixpoint Encode (unescaped : N → bool) (s : jsstring) : completion jsstring :=
  match s with
  | [] => Return []
  | c :: rest =>
      if unescaped c then r ← Encode unescaped rest; Return (c :: r)
      else if is_trailing_surrogate c then Throw URIError
      else if is_leading_surrogate c then
        match rest with
        | [] => Throw URIError
        | d :: rest' =>
            if is_trailing_surrogate d then
              r ← Encode unescaped rest';
              Return (escape_code_point ((c - 0xD800) * 0x400 + (d - 0xDC00) + 0x10000) ++ r)
            else Throw URIError
        end
      else r ← Encode unescaped rest; Return (escape_code_point c ++ r)
  end.

(** [String.prototype.isWellFormed]: no surrogate is unpaired. *)
Fixpoint isWellFormed (s : jsstring) : bool :=
  match s with
  | [] => true
  | c :: rest =>
      if is_trailing_surrogate c then false
      else if is_leading_surrogate c then
        match rest with
        | [] => false
        | d :: rest' => is_trailing_surrogate d && isWellFormed rest'
        end
      else isWellFormed rest
  end.

(** [encodeURIComponent(uriComponent)] *)
Definition encodeURIComponent (uriComponent : value) : completion jsstring :=
  componentString ← ToString uriComponent;
  Encode uriUnescaped componentString.

(** *** URI decoding

    [decodeURIComponent], the inverse the remote service applies to a path
    segment.  It is written in two passes that together fail exactly when
    the one-pass [Decode] of the standard does: the escapes are read into
    octets, then the octets are read as UTF-8. *)

Inductive token :=
| Unit (c : N)
| Octet (b : N).

Definition hex_value (c : N) : option N :=
  if is_digit c then Some (c - 48)
  else if (65 <=? c) && (c <=? 70) then Some (c - 55)
  else if (97 <=? c) && (c <=? 102) then Some (c - 87)
  else None.

Fixpoint unescape (s : jsstring) : completion (list token) :=
  match s with
  | [] => Return []
  | c :: rest =>
      if c =? 37 then
        match rest with
        | h :: l :: rest' =>
            match hex_value h, hex_value l with
            | Some a, Some b => r ← unescape rest'; Return (Octet (16 * a + b) :: r)
            | _, _ => Throw URIError
            end
        | _ => Throw URIError
        end
      else r ← unescape rest; Return (Unit c :: r)
  end.

Definition is_continuation (b : N) : bool := (0x80 <=? b) && (b <? 0xC0).

Fixpoint utf8_decode (ts : list token) : completion jsstring :=
  match ts with
  | [] => Return []
  | Unit c :: rest => r ← utf8_decode rest; Return (c :: r)
  | Octet b :: rest =>
      if b <? 0x80 then r ← utf8_decode rest; Return (b :: r)
      else if b <? 0xC0 then Throw URIError
      else if b <? 0xE0 then
        match rest with
        | Octet b1 :: rest' =>
            let cp := (b - 0xC0) * 64 + (b1 - 0x80) in
            if is_continuation b1 && (0x80 <=? cp)
            then r ← utf8_decode rest'; Return (cp :: r)
            else Throw URIError
        | _ => Throw URIError
        end
      else if b <? 0xF0 then
        match rest with
        | Octet b1 :: Octet b2 :: rest' =>
            let cp := (b - 0xE0) * 4096 + (b1 - 0x80) * 64 + (b2 - 0x80) in
            if is_continuation b1 && is_continuation b2 && (0x800 <=? cp)
               && negb ((0xD800 <=? cp) && (cp <=? 0xDFFF))
            then r ← utf8_decode rest'; Return (cp :: r)
            else Throw URIError
        | _ => Throw URIError
        end
      else if b <? 0xF8 then
        match rest with
        | Octet b1 :: Octet b2 :: Octet b3 :: rest' =>
            let cp := (b - 0xF0) * 262144 + (b1 - 0x80) * 4096
                      + (b2 - 0x80) * 64 + (b3 - 0x80) in
            if is_continuation b1 && is_continuation b2 && is_continuation b3
               && (0x10000 <=? cp) && (cp <=? 0x10FFFF)
            then r ← utf8_decode rest';
                 Return (0xD800 + (cp - 0x10000) / 0x400
                         :: 0xDC00 + (cp - 0x10000) mod 0x400 :: r)
            else Throw URIError
        | _ => Throw URIError
        end
      else Throw URIError
  end.

Definition decodeURIComponent (encoded : jsstring) : completion jsstring :=
  ts ← unescape encoded;
  utf8_decode ts.

(** *** Property order of ordinary objects

    An object literal is given as the list of its properties in source
    order.  [OrdinaryOwnPropertyKeys] does not enumerate in that order:
    keys that are array indices (canonical decimal numerals below
    2^32 - 1) come first, in ascending numeric order, and the remaining
    string keys follow in creation order. *)

Fixpoint digits_value (acc : N) (s : jsstring) : N :=
  match s with
  | [] => acc
  | c :: r => digits_value (10 * acc + (c - 48)) r
  end.

Definition array_index (key : jsstring) : option N :=
  match key with
  | [] => None
  | c :: r =>
      if forallb is_digit key && (negb (c =? 48) || bool_decide (r = []))
      then let v := digits_value 0 key in
           if v <? 2 ^ 32 - 1 then Some v else None
      else None
  end.

Section Entries.
Context {V : Type}.

Fixpoint insert_by_index (i : N) (e : jsstring * V)
         (sorted : list (N * (jsstring * V))) : list (N * (jsstring * V)) :=
  match sorted with
  | [] => [(i, e)]
  | (j, e') :: rest =>
      if i <? j then (i, e) :: sorted
      else (j, e') :: insert_by_index i e rest
  end.

Fixpoint index_entries (o : list (jsstring * V)) : list (N * (jsstring * V)) :=
  match o with
  | [] => []
  | (k, v) :: rest =>
      match array_index k with
      | Some i => insert_by_index i (k, v) (index_entries rest)
      | None => index_entries rest
      end
  end.

Definition string_entries (o : list (jsstring * V)) : list (jsstring * V) :=
  filter (fun e => array_index (fst e) = None) o.

(** [Object.entries(o)] for an object whose properties are all own,
    enumerable and string-keyed. *)
Definition Object_entries (o : list (jsstring * V)) : list (jsstring * V) :=
  map snd (index_entries o) ++ string_entries o.
End Entries.

End JS.

Import JS.

(** ** The transport

    [fetch] is the one collaborator of the class.  A computation that may
    call it threads the log of the requests issued so far; the remote
    service itself is a parameter of the class model. *)

Module Fetch.

(** The options of [https.Agent] the constructor sets. *)
Record Agent := {
  rejectUnauthorized : bool;
  ciphers : jsstring;
  honorCipherOrder : bool;
  minVersion : jsstring;
  maxVersion : jsstring
}.

(** The second argument of [fetch]. *)
Record RequestInit := {
  method : jsstring;
  agent : Agent;
  headers : gmap jsstring jsstring
}.

Record Request := { url : jsstring; init : RequestInit }.

(** A response: its status, and its body as [res.json()] decodes it
    ([None] when the body is not JSON). *)
Record Response := { status : Z; body : option value }.

(** [res.ok]: the status is in the range 200 to 299. *)
Definition ok (res : Response) : bool :=
  (200 <=? status res)%Z && (status res <=? 299)%Z.

(** [res.json()] *)
Definition json (res : Response) : completion value :=
  match body res with
  | Some v => Return v
  | None => Throw SyntaxError
  end.

Definition io (A : Type) : Type := list Request → completion A * list Request.

#[global] Instance io_ret : MRet io := fun _ a log => (Return a, log).
#[global] Instance io_bind : MBind io := fun _ _ f c log =>
  match c log with
  | (Return a, log') => f a log'
  | (Throw e, log') => (Throw e, log')
  end.

Definition lift {A : Type} (c : completion A) : io A := fun log => (c, log).

(** [await fetch(url, init)] against a given service: the request is
    logged, and the service's answer or rejection is the completion. *)
Definition fetch (service : Request → completion Response)
           (url : jsstring) (init : RequestInit) : io Response :=
  fun log => let req := {| url := url; init := init |} in (service req, log ++ [req]).

End Fetch.

(** ** The class *)

Module FurtrackAPI.

(** The instance fields. *)
Record Client := {
  apiKey : option jsstring;
  baseUrl : jsstring;
  agent : Fetch.Agent;
  defaultHeaders : gmap jsstring jsstring
}.

(** The headers the constructor starts from. *)
Definition builtinHeaders : gmap jsstring jsstring :=
  list_to_map
    [ (js "User-Agent", js "furtrack-api/1.0 (https://github.com/blumlaut/furtrack-api)");
      (js "Accept", js "application/json, text/plain, */*");
      (js "Referer", js "https://www.furtrack.com/");
      (js "Origin", js "https://www.furtrack.com");
      (js "Accept-Language", js "en-US,en;q=0.5") ].

(** [constructor({ apiKey = undefined, headers = {} } = {})]; an omitted
    [apiKey] is [None].  The spread puts the caller's headers over the
    built-in ones, and a truthy key adds the bearer header. *)
Definition constructor (apiKey : option jsstring)
           (headers : gmap jsstring jsstring) : Client :=
  let merged := headers ∪ builtinHeaders in
  {| apiKey := apiKey;
     baseUrl := js "https://solar.furtrack.com";
     agent := {| Fetch.rejectUnauthorized := false;
                 Fetch.ciphers := js "TLS_AES_128_GCM_SHA256:TLS_AES_256_GCM_SHA384";
                 Fetch.honorCipherOrder := true;
                 Fetch.minVersion := js "TLSv1.2";
                 Fetch.maxVersion := js "TLSv1.3" |};
     defaultHeaders :=
       match apiKey with
       | Some key =>
           if ToBoolean (VStr key)
           then <[js "Authorization" := js "Bearer " ++ key]> merged
           else merged
       | None => merged
       end |}.

(** [static TagTypes] *)
Module TagTypes.
Definition Character : jsstring := js "character".
Definition Maker : jsstring := js "maker".
Definition Photographer : jsstring := js "photographer".
Definition Species : jsstring := js "species".
Definition Event : jsstring := js "event".
Definition General : jsstring := js "general".
End TagTypes.

(** [static tagTypePrefixes], the properties in source order. *)
Definition tagTypePrefixes : list (jsstring * jsstring) :=
  [ (js "1:", TagTypes.Character);
    (js "2:", TagTypes.Maker);
    (js "3:", TagTypes.Photographer);
    (js "5:", TagTypes.Event);
    (js "6", TagTypes.Species) ].

(** [setApiKey(apiKey)] *)
Definition setApiKey (key : jsstring) (this : Client) : Client :=
  {| apiKey := Some key;
     baseUrl := baseUrl this;
     agent := agent this;
     defaultHeaders := <[js "Authorization" := js "Bearer " ++ key]> (defaultHeaders this) |}.

(** [setHeaders(headers)]: the spread copies the old headers, then the
    new ones over them. *)
Definition setHeaders (headers : gmap jsstring jsstring) (this : Client) : Client :=
  {| apiKey := apiKey this;
     baseUrl := baseUrl this;
     agent := agent this;
     defaultHeaders := headers ∪ defaultHeaders this |}.

(** The [options] argument of [fetchJSON]: the fields of the request
    options it may override; [{}] overrides none. *)
Record FetchOptions := {
  opt_method : option jsstring;
  opt_agent : option Fetch.Agent;
  opt_headers : option (gmap jsstring jsstring)
}.

Definition no_options : FetchOptions :=
  {| opt_method := None; opt_agent := None; opt_headers := None |}.

(** The expression [page > 0 ? `/${page}` : ''] that four methods append
    to their path. *)
Definition pageSegment (page : Z) : jsstring :=
  if (0 <? page)%Z then js "/" ++ NumberToString page else js "".

(** [response.posts || []] *)
Definition postsOrEmpty (response : value) : completion value :=
  posts ← Get response (js "posts");
  Return (if ToBoolean posts then posts else VArr []).

(** The template literal of [getThumbnail]. *)
Definition thumbnailUrl (postData : value) : completion jsstring :=
  submitUserId ← Get postData (js "submitUserId");
  s1 ← ToString submitUserId;
  id ← Get postData (js "id");
  s2 ← ToString id;
  metaFingerprint ← Get postData (js "metaFingerprint");
  s3 ← ToString metaFingerprint;
  metaFiletype ← Get postData (js "metaFiletype");
  s4 ← ToString metaFiletype;
  Return (js "https://orca2.furtrack.com/gallery/" ++ s1 ++ js "/" ++ s2
          ++ js "-" ++ s3 ++ js "." ++ s4).

Section Methods.
(** The remote service behind [fetch]. *)
Variable service : Fetch.Request → completion Fetch.Response.

(** [async fetchJSON(path, options = {})] *)
Definition fetchJSON (this : Client) (path : jsstring) (options : FetchOptions)
  : Fetch.io value :=
  let url := baseUrl this ++ path in
  let fetchOptions :=
    {| Fetch.method := default (js "GET") (opt_method options);
       Fetch.agent := default (agent this) (opt_agent options);
       Fetch.headers := default (defaultHeaders this) (opt_headers options) |} in
  res ← Fetch.fetch service url fetchOptions;
  if negb (Fetch.ok res)
  then Fetch.lift (Throw (Error (js "HTTP error " ++ NumberToString (Fetch.status res))))
  else Fetch.lift (Fetch.json res).

(** [getTag(tag)] *)
Definition getTag (this : Client) (tag : value) : Fetch.io value :=
  t ← Fetch.lift (encodeURIComponent tag);
  fetchJSON this (js "/get/index/" ++ t) no_options.

(** [getUser(username)] *)
Definition getUser (this : Client) (username : value) : Fetch.io value :=
  u ← Fetch.lift (encodeURIComponent username);
  fetchJSON this (js "/get/u/" ++ u) no_options.

(** [getPost(postId)] *)
Definition getPost (this : Client) (postId : value) : Fetch.io value :=
  p ← Fetch.lift (encodeURIComponent postId);
  fetchJSON this (js "/view/post/" ++ p) no_options.

(** [async getPostsByTag(tag, page = 0)]; an omitted [page] is [None]. *)
Definition getPostsByTag (this : Client) (tag : value) (page : option Z) : Fetch.io value :=
  let page := default 0%Z page in
  t ← Fetch.lift (encodeURIComponent tag);
  response ← fetchJSON this (js "/get/tag/" ++ t ++ pageSegment page) no_options;
  Fetch.lift (postsOrEmpty response).

(** [async getPostsByUser(username, page = 0)] *)
Definition getPostsByUser (this : Client) (username : value) (page : option Z) : Fetch.io value :=
  let page := default 0%Z page in
  u ← Fetch.lift (encodeURIComponent username);
  response ← fetchJSON this (js "/view/album/" ++ u ++ js "/3" ++ pageSegment page) no_options;
  Fetch.lift (postsOrEmpty response).

(** [async getLikes(username, page = 0)] *)
Definition getLikes (this : Client) (username : value) (page : option Z) : Fetch.io value :=
  let page := default 0%Z page in
  u ← Fetch.lift (encodeURIComponent username);
  response ← fetchJSON this (js "/view/album/" ++ u ++ js "/o" ++ pageSegment page) no_options;
  Fetch.lift (postsOrEmpty response).

(** [async getThumbnail(postId)] *)
Definition getThumbnail (this : Client) (postId : value) : Fetch.io jsstring :=
  postData ← getPost this postId;
  Fetch.lift (thumbnailUrl postData).

(** [getAlbum(username, albumId, page = 0)] *)
Definition getAlbum (this : Client) (username albumId : value) (page : option Z) : Fetch.io value :=
  let page := default 0%Z page in
  u ← Fetch.lift (encodeURIComponent username);
  a ← Fetch.lift (encodeURIComponent albumId);
  fetchJSON this (js "/view/album/" ++ u ++ js "/" ++ a ++ pageSegment page) no_options.
End Methods.

(** The object literal [{ type, value }] returned by [parseTag]. *)
Record ParsedTag := { type : jsstring; value : jsstring }.

(** The [for ... of] loop of [parseTag] over the remaining entries. *)
Fixpoint parseTag_loop (entries : list (jsstring * jsstring))
         (tagString : jsstring) : ParsedTag :=
  match entries with
  | [] => {| type := TagTypes.General; value := tagString |}
  | (prefix, ty) :: rest =>
      if startsWith tagString prefix
      then {| type := ty; value := slice tagString (length prefix) |}
      else parseTag_loop rest tagString
  end.

(** [static parseTag(tagString)] *)
Definition parseTag (tagString : jsstring) : ParsedTag :=
  parseTag_loop (Object_entries tagTypePrefixes) tagString.

(** A tag record, as [getTagsByType] reads it. *)
Record Tag := { tagName : jsstring }.

(** [static getTagsByType(tags, type)]: map, filter, map. *)
Definition getTagsByType (tags : list Tag) (ty : jsstring) : list jsstring :=
  map value
      (filter (fun parsed => type parsed = ty)
              (map (fun tag => parseTag (tagName tag)) tags)).

End FurtrackAPI.

Import FurtrackAPI.

(** ** Reference definitions, written from the specification *)

Module Reference.

(** The ordered rule table of the specification: the five prefix rules in
    declaration order. *)
Definition rules : list (jsstring * jsstring) :=
  [ (js "1:", TagTypes.Character);
    (js "2:", TagTypes.Maker);
    (js "3:", TagTypes.Photographer);
    (js "5:", TagTypes.Event);
    (js "6", TagTypes.Species) ].

(** The rules are tried in declaration order and the first one whose
    prefix is a textual prefix of the raw tag wins; a tag that no rule
    matches is General, unchanged. *)
Definition classify (raw : jsstring) : ParsedTag :=
  match find (fun rule => bool_decide (fst rule `prefix_of` raw)) rules with
  | Some (prefix, ty) => {| type := ty; value := drop (length prefix) raw |}
  | None => {| type := TagTypes.General; value := raw |}
  end.

(** The values, in input order, of the tags whose parsed type is [ty]. *)
Fixpoint tagsOfType (tags : list Tag) (ty : jsstring) : list jsstring :=
  match tags with
  | [] => []
  | tag :: rest =>
      let parsed := parseTag (tagName tag) in
      if bool_decide (type parsed = ty)
      then value parsed :: tagsOfType rest ty
      else tagsOfType rest ty
  end.

End Reference.

(** ** Observations *)

(** The request [fetchJSON(path, options)] sends. *)
Definition request_of (this : Client) (path : jsstring) (options : FetchOptions)
  : Fetch.Request :=
  {| Fetch.url := baseUrl this ++ path;
     Fetch.init := {| Fetch.method := default (js "GET") (opt_method options);
                      Fetch.agent := default (agent this) (opt_agent options);
                      Fetch.headers := default (defaultHeaders this) (opt_headers options) |} |}.

(** The error [fetchJSON] throws for an unsuccessful response. *)
Definition http_error (res : Fetch.Response) : exn :=
  Error (js "HTTP error " ++ NumberToString (Fetch.status res)).

(** What [fetchJSON] makes of the service's answer to a request. *)
Definition outcome (service : Fetch.Request → completion Fetch.Response)
           (req : Fetch.Request) : completion JS.value :=
  match service req with
  | Return res =>
      if Fetch.ok res then Fetch.json res else Throw (http_error res)
  | Throw e => Throw e
  end.

(** The URLs of a log. *)
Definition urls (log : list Fetch.Request) : list jsstring := map Fetch.url log.

(** The URLs a computation requests when it starts from an empty log. *)
Definition requested {A : Type} (c : Fetch.io A) : list jsstring := urls (snd (c [])).

(** [e] is the percent-encoding of the string [s]: what
    [encodeURIComponent] returns for it, made of unescaped characters and
    ["%"] only, and read back as [s] by [decodeURIComponent]. *)
Definition percent_encoded (s e : jsstring) : Prop :=
  encodeURIComponent (VStr s) = Return e ∧
  Forall (fun c => uriUnescaped c = true ∨ c = 37) e ∧
  decodeURIComponent e = Return s.

(** A service that gives the same response to every request. *)
Definition always (res : Fetch.Response) : Fetch.Request → completion Fetch.Response :=
  fun _ => Return res.

(** A successful response with a decoded JSON body. *)
Definition ok_json (body : JS.value) : Fetch.Response :=
  {| Fetch.status := 200; Fetch.body := Some body |}.

(** The three list-fetch methods. *)
Definition list_fetch :
  list ((Fetch.Request → completion Fetch.Response) → Client → JS.value → option Z
        → Fetch.io JS.value) :=
  [getPostsByTag; getPostsByUser; getLikes].

(** ** Further observations *)

(** The tag string a parsed tag stands for: the prefix the table gives its
    type, if it gives one, followed by the value. *)
Definition unparseTag (parsed : ParsedTag) : jsstring :=
  match find (fun entry => bool_decide (snd entry = type parsed)) tagTypePrefixes with
  | Some (prefix, _) => prefix ++ value parsed
  | None => value parsed
  end.

(** The clients a program can hold: one built by the constructor, changed
    by any number of calls of the two setters. *)
Inductive reachable : Client → Prop :=
| reachable_constructor apiKey headers : reachable (constructor apiKey headers)
| reachable_setApiKey key this : reachable this → reachable (setApiKey key this)
| reachable_setHeaders headers this : reachable this → reachable (setHeaders headers this).

(** A call of one of the eight network methods, with its arguments. *)
Inductive call :=
| GetTag (tag : JS.value)
| GetUser (username : JS.value)
| GetPost (postId : JS.value)
| GetPostsByTag (tag : JS.value) (page : option Z)
| GetPostsByUser (username : JS.value) (page : option Z)
| GetLikes (username : JS.value) (page : option Z)
| GetThumbnail (postId : JS.value)
| GetAlbum (username albumId : JS.value) (page : option Z).

(** The call performed on a client; the URL [getThumbnail] returns is
    given as a String value. *)
Definition perform (service : Fetch.Request → completion Fetch.Response)
           (this : Client) (c : call) : Fetch.io JS.value :=
  match c with
  | GetTag tag => getTag service this tag
  | GetUser username => getUser service this username
  | GetPost postId => getPost service this postId
  | GetPostsByTag tag page => getPostsByTag service this tag page
  | GetPostsByUser username page => getPostsByUser service this username page
  | GetLikes username page => getLikes service this username page
  | GetThumbnail postId => url ← getThumbnail service this postId; mret (VStr url)
  | GetAlbum username albumId page => getAlbum service this username albumId page
  end.

(** The values that are not objects. *)
Definition primitive (v : JS.value) : bool :=
  match v with
  | VArr _ | VObj _ => false
  | _ => true
  end.

(** The string form of a value, as a template literal or a conversion to
    String shows it: the words for [undefined], [null] and the booleans,
    the decimal numeral of a safe integer, a string as it is,
    "[object Object]" for an object that has no own [toString] property,
    and for an array the forms of its elements separated by commas, where
    [undefined] and [null] elements show as nothing.  An object with an own
    [toString] property has no string form. *)
Inductive string_form : JS.value → jsstring → Prop :=
| form_undefined : string_form VUndefined (js "undefined")
| form_null : string_form VNull (js "null")
| form_true : string_form (VBool true) (js "true")
| form_false : string_form (VBool false) (js "false")
| form_number z : safe_integer z → string_form (VNum z) (NumberToString z)
| form_string s : string_form (VStr s) s
| form_array elements s : joined_form elements s → string_form (VArr elements) s
| form_object props :
    lookup_prop (js "toString") props = None →
    string_form (VObj props) (js "[object Object]")
with joined_form : list JS.value → jsstring → Prop :=
| joined_none : joined_form [] (js "")
| joined_last e s : element_form e s → joined_form [e] s
| joined_more e s e' rest r :
    element_form e s → joined_form (e' :: rest) r →
    joined_form (e :: e' :: rest) (s ++ js "," ++ r)
with element_form : JS.value → jsstring → Prop :=
| element_undefined : element_form VUndefined (js "")
| element_null : element_form VNull (js "")
| element_value v s :
    v ≠ VUndefined → v ≠ VNull → string_form v s → element_form v s.

Scheme string_form_scheme := Minimality for string_form Sort Prop
  with joined_form_scheme := Minimality for joined_form Sort Prop
  with element_form_scheme := Minimality for element_form Sort Prop.

(** A service that rejects every request. *)
Definition rejecting (e : exn) : Fetch.Request → completion Fetch.Response :=
  fun _ => Throw e.

(** * Properties *)

(** ** The classifier on inputs of the test suite *)

Example entries_order :
  map fst (Object_entries tagTypePrefixes) = [js "6"; js "1:"; js "2:"; js "3:"; js "5:"].
Proof. vm_compute. reflexivity. Qed.

Example parse_fluffy :
  parseTag (js "1:Fluffy") = {| type := TagTypes.Character; value := js "Fluffy" |}.
Proof. vm_compute. reflexivity. Qed.

Example tags_by_type :
  getTagsByType [ {| tagName := js "1:Alpha" |}; {| tagName := js "2:Beta" |};
                  {| tagName := js "1:Gamma" |}; {| tagName := js "random" |} ]
                TagTypes.Character = [js "Alpha"; js "Gamma"].
Proof. vm_compute. reflexivity. Qed.

(** ** Strings *)

Lemma startsWith_prefix (s p : jsstring) :
  startsWith s p = true ↔ p `prefix_of` s.
Proof.
  revert s. induction p as [|a p IH]; intros s; simpl.
  - split; [intros _; apply prefix_nil | done].
  - destruct s as [|b r].
    + split; [done | intros [k Hk]; discriminate Hk].
    + rewrite andb_true_iff, N.eqb_eq, IH. split.
      * intros [-> Hp]. by apply prefix_cons.
      * intros [k Hk]. injection Hk as -> ->. split; [done | by exists k].
Qed.

Lemma startsWith_decide (s p : jsstring) :
  bool_decide (p `prefix_of` s) = startsWith s p.
Proof.
  destruct (startsWith s p) eqn:E.
  - apply bool_decide_eq_true, startsWith_prefix, E.
  - apply bool_decide_eq_false. rewrite <- startsWith_prefix. congruence.
Qed.

Lemma startsWith_head (s p q : jsstring) (a b : N) :
  startsWith s (a :: p) = true → startsWith s (b :: q) = true → a = b.
Proof.
  destruct s as [|c r]; simpl; [done |].
  rewrite !andb_true_iff, !N.eqb_eq. intros [-> _] [-> _]. done.
Qed.

(** ** The tag classifier *)

(** The order in which [Object.entries] yields the prefix table: the key
    ["6"] is an array index and is enumerated first. *)
Lemma entries_tagTypePrefixes :
  Object_entries tagTypePrefixes =
  [ (js "6", TagTypes.Species);
    (js "1:", TagTypes.Character);
    (js "2:", TagTypes.Maker);
    (js "3:", TagTypes.Photographer);
    (js "5:", TagTypes.Event) ].
Proof. vm_compute. reflexivity. Qed.

Ltac prefix_clash :=
  match goal with
  | H1 : startsWith ?s (?a :: _) = true, H2 : startsWith ?s (?b :: _) = true |- _ =>
      pose proof (startsWith_head _ _ _ _ _ H1 H2); discriminate
  end.

(** [parseTag] as a cascade over the five prefixes, in the order of the
    source text. *)
Lemma parseTag_cascade (s : jsstring) :
  parseTag s =
  if startsWith s (js "1:") then {| type := TagTypes.Character; value := drop 2 s |}
  else if startsWith s (js "2:") then {| type := TagTypes.Maker; value := drop 2 s |}
  else if startsWith s (js "3:") then {| type := TagTypes.Photographer; value := drop 2 s |}
  else if startsWith s (js "5:") then {| type := TagTypes.Event; value := drop 2 s |}
  else if startsWith s (js "6") then {| type := TagTypes.Species; value := drop 1 s |}
  else {| type := TagTypes.General; value := s |}.
Proof.
  unfold parseTag. rewrite entries_tagTypePrefixes.
  cbn [parseTag_loop slice].
  change (js "1:") with [49; 58]. change (js "2:") with [50; 58].
  change (js "3:") with [51; 58]. change (js "5:") with [53; 58].
  change (js "6") with [54].
  destruct (startsWith s [54]) eqn:E6;
    destruct (startsWith s [49; 58]) eqn:E1;
    destruct (startsWith s [50; 58]) eqn:E2;
    destruct (startsWith s [51; 58]) eqn:E3;
    destruct (startsWith s [53; 58]) eqn:E5;
    try reflexivity; prefix_clash.
Qed.

(** C1: a tag that starts with "1:", "2:", "3:" or "5:" is parsed to
    Character, Maker, Photographer or Event with its first two code units
    removed; one that starts with "6" is parsed to Species with its first
    code unit removed; a tag that starts with none of the five prefixes is
    General, unchanged. *)
Theorem parseTag_by_prefix (s : jsstring) :
  (js "1:" `prefix_of` s →
     parseTag s = {| type := TagTypes.Character; value := drop 2 s |}) ∧
  (js "2:" `prefix_of` s →
     parseTag s = {| type := TagTypes.Maker; value := drop 2 s |}) ∧
  (js "3:" `prefix_of` s →
     parseTag s = {| type := TagTypes.Photographer; value := drop 2 s |}) ∧
  (js "5:" `prefix_of` s →
     parseTag s = {| type := TagTypes.Event; value := drop 2 s |}) ∧
  (js "6" `prefix_of` s →
     parseTag s = {| type := TagTypes.Species; value := drop 1 s |}) ∧
  (¬ js "1:" `prefix_of` s → ¬ js "2:" `prefix_of` s → ¬ js "3:" `prefix_of` s →
   ¬ js "5:" `prefix_of` s → ¬ js "6" `prefix_of` s →
     parseTag s = {| type := TagTypes.General; value := s |}).
Proof.
  rewrite parseTag_cascade.
  rewrite <- !startsWith_prefix.
  change (js "1:") with [49; 58]. change (js "2:") with [50; 58].
  change (js "3:") with [51; 58]. change (js "5:") with [53; 58].
  change (js "6") with [54].
  destruct (startsWith s [49; 58]) eqn:E1;
    destruct (startsWith s [50; 58]) eqn:E2;
    destruct (startsWith s [51; 58]) eqn:E3;
    destruct (startsWith s [53; 58]) eqn:E5;
    destruct (startsWith s [54]) eqn:E6;
    try prefix_clash;
    repeat split; intros; congruence.
Qed.

(** C2: for every input, [parseTag], which scans the prefix table in the
    order [Object.entries] yields it, returns what the reference
    classifier returns, which tries the rules in declaration order and
    takes the first textual-prefix match. *)
Theorem parseTag_refines_reference (s : jsstring) :
  parseTag s = Reference.classify s.
Proof.
  rewrite parseTag_cascade.
  unfold Reference.classify, Reference.rules.
  cbn [find fst]. rewrite !startsWith_decide.
  change (js "1:") with [49; 58]. change (js "2:") with [50; 58].
  change (js "3:") with [51; 58]. change (js "5:") with [53; 58].
  change (js "6") with [54].
  destruct (startsWith s [49; 58]); [reflexivity |].
  destruct (startsWith s [50; 58]); [reflexivity |].
  destruct (startsWith s [51; 58]); [reflexivity |].
  destruct (startsWith s [53; 58]); [reflexivity |].
  destruct (startsWith s [54]); reflexivity.
Qed.

(** C7: [getTagsByType] returns the values of the tags whose parsed type
    is the requested one, in input order and with duplicates kept; the
    four-tag example gives Alpha and Gamma, and a list without a match
    gives the empty list. *)
Theorem getTagsByType_filter_map (tags : list Tag) (ty : jsstring) :
  getTagsByType tags ty = Reference.tagsOfType tags ty ∧
  getTagsByType [ {| tagName := js "1:Alpha" |}; {| tagName := js "2:Beta" |};
                  {| tagName := js "1:Gamma" |}; {| tagName := js "random" |} ]
                TagTypes.Character = [js "Alpha"; js "Gamma"] ∧
  getTagsByType [ {| tagName := js "2:Beta" |} ] TagTypes.Event = [] ∧
  ((∀ tag, tag ∈ tags → type (parseTag (tagName tag)) ≠ ty) → getTagsByType tags ty = []).
Proof.
  assert (Heq : ∀ l, getTagsByType l ty = Reference.tagsOfType l ty).
  { induction l as [|tag rest IH]; [reflexivity |].
    unfold getTagsByType in *. cbn [map Reference.tagsOfType].
    case_bool_decide as Hty.
    - rewrite filter_cons_True by exact Hty. cbn [map]. by rewrite IH.
    - rewrite filter_cons_False by exact Hty. exact IH. }
  split; [apply Heq |]. split; [vm_compute; reflexivity |].
  split; [vm_compute; reflexivity |].
  intros Hnone. rewrite Heq.
  induction tags as [|tag rest IH]; [reflexivity |].
  cbn [Reference.tagsOfType]. case_bool_decide as Hty.
  - exfalso. apply (Hnone tag); [left | exact Hty].
  - apply IH. intros t Ht. apply Hnone. by right.
Qed.

(** ** Header state *)

(** C9: after [setHeaders h], a key of [h] has its value in [h], a key
    absent from [h] has the value it had before, keys are told apart by
    exact, case-sensitive comparison, and neither [setHeaders] nor
    [setApiKey] removes a key. *)
Theorem setHeaders_shallow_merge (this : Client) (h : gmap jsstring jsstring)
        (k : jsstring) :
  (∀ v, h !! k = Some v → defaultHeaders (setHeaders h this) !! k = Some v) ∧
  (h !! k = None → defaultHeaders (setHeaders h this) !! k = defaultHeaders this !! k) ∧
  (is_Some (defaultHeaders this !! k) →
     is_Some (defaultHeaders (setHeaders h this) !! k)) ∧
  (∀ key, is_Some (defaultHeaders this !! k) →
     is_Some (defaultHeaders (setApiKey key this) !! k)) ∧
  (∀ v, defaultHeaders (setHeaders {[ js "x-test" := v ]} this) !! js "X-Test"
        = defaultHeaders this !! js "X-Test") ∧
  (let after := setHeaders {[ js "X-Test" := js "foo" ]} (constructor None ∅) in
   defaultHeaders after !! js "X-Test" = Some (js "foo") ∧
   defaultHeaders after !! js "User-Agent"
   = Some (js "furtrack-api/1.0 (https://github.com/blumlaut/furtrack-api)")).
Proof.
  unfold setHeaders, setApiKey; cbn [defaultHeaders].
  split_and!.
  - intros v Hv. by apply lookup_union_Some_l.
  - intros Hk. by apply lookup_union_r.
  - intros [v Hv]. destruct (h !! k) as [w|] eqn:Hk.
    + exists w. by apply lookup_union_Some_l.
    + exists v. by rewrite lookup_union_r.
  - intros key [v Hv]. destruct (decide (js "Authorization" = k)) as [<-|Hne].
    + rewrite lookup_insert_eq. by eexists.
    + rewrite lookup_insert_ne by exact Hne. by exists v.
  - intros v. apply lookup_union_r. by apply lookup_singleton_ne.
  - apply lookup_union_Some_l, lookup_singleton_eq.
  - rewrite lookup_union_r by (by apply lookup_singleton_ne).
    vm_compute. reflexivity.
Qed.

(** ** Running the methods *)

Lemma fetchJSON_run service this path options log :
  fetchJSON service this path options log =
  (outcome service (request_of this path options),
   log ++ [request_of this path options]).
Proof.
  unfold fetchJSON, outcome, request_of, http_error, mbind, Fetch.io_bind, Fetch.fetch.
  destruct (service _) as [res|e]; [| reflexivity].
  destruct (Fetch.ok res); reflexivity.
Qed.

Lemma bind_lift {A B : Type} (c : completion A) (k : A → Fetch.io B) log :
  (x ← Fetch.lift c; k x) log =
  match c with
  | Return a => k a log
  | Throw e => (Throw e, log)
  end.
Proof. unfold mbind, Fetch.io_bind, Fetch.lift. destruct c; reflexivity. Qed.

Lemma bind_fetchJSON {B : Type} service this path (k : JS.value → Fetch.io B) log :
  (r ← fetchJSON service this path no_options; k r) log =
  match outcome service (request_of this path no_options) with
  | Return v => k v (log ++ [request_of this path no_options])
  | Throw e => (Throw e, log ++ [request_of this path no_options])
  end.
Proof.
  unfold mbind at 1. unfold Fetch.io_bind. rewrite fetchJSON_run.
  destruct (outcome _ _); reflexivity.
Qed.

Lemma outcome_always res req :
  outcome (always res) req = if Fetch.ok res then Fetch.json res else Throw (http_error res).
Proof. reflexivity. Qed.

(** Each method, once its arguments are encoded, sends one request. *)

Lemma getTag_run service this tag t log :
  encodeURIComponent tag = Return t →
  getTag service this tag log =
  (outcome service (request_of this (js "/get/index/" ++ t) no_options),
   log ++ [request_of this (js "/get/index/" ++ t) no_options]).
Proof. intros H. unfold getTag. rewrite bind_lift, H. apply fetchJSON_run. Qed.

Lemma getUser_run service this username u log :
  encodeURIComponent username = Return u →
  getUser service this username log =
  (outcome service (request_of this (js "/get/u/" ++ u) no_options),
   log ++ [request_of this (js "/get/u/" ++ u) no_options]).
Proof. intros H. unfold getUser. rewrite bind_lift, H. apply fetchJSON_run. Qed.

Lemma getPost_run service this postId p log :
  encodeURIComponent postId = Return p →
  getPost service this postId log =
  (outcome service (request_of this (js "/view/post/" ++ p) no_options),
   log ++ [request_of this (js "/view/post/" ++ p) no_options]).
Proof. intros H. unfold getPost. rewrite bind_lift, H. apply fetchJSON_run. Qed.

Lemma getAlbum_run service this username albumId page u a log :
  encodeURIComponent username = Return u →
  encodeURIComponent albumId = Return a →
  let path := js "/view/album/" ++ u ++ js "/" ++ a ++ pageSegment (default 0%Z page) in
  getAlbum service this username albumId page log =
  (outcome service (request_of this path no_options),
   log ++ [request_of this path no_options]).
Proof.
  intros Hu Ha. unfold getAlbum. cbv zeta.
  rewrite bind_lift, Hu, bind_lift, Ha. apply fetchJSON_run.
Qed.

Lemma bind_outcome {B : Type} (c : completion JS.value) (k : JS.value → completion B)
      (log : list Fetch.Request) :
  match c with
  | Return v => Fetch.lift (k v) log
  | Throw e => (Throw e, log)
  end = (c ≫= k, log).
Proof. destruct c; reflexivity. Qed.

Lemma getPostsByTag_run service this tag page t log :
  encodeURIComponent tag = Return t →
  let path := js "/get/tag/" ++ t ++ pageSegment (default 0%Z page) in
  getPostsByTag service this tag page log =
  (outcome service (request_of this path no_options) ≫= postsOrEmpty,
   log ++ [request_of this path no_options]).
Proof.
  intros H. unfold getPostsByTag. cbv zeta.
  rewrite bind_lift, H, bind_fetchJSON. apply bind_outcome.
Qed.

Lemma getPostsByUser_run service this username page u log :
  encodeURIComponent username = Return u →
  let path := js "/view/album/" ++ u ++ js "/3" ++ pageSegment (default 0%Z page) in
  getPostsByUser service this username page log =
  (outcome service (request_of this path no_options) ≫= postsOrEmpty,
   log ++ [request_of this path no_options]).
Proof.
  intros H. unfold getPostsByUser. cbv zeta.
  rewrite bind_lift, H, bind_fetchJSON. apply bind_outcome.
Qed.

Lemma getLikes_run service this username page u log :
  encodeURIComponent username = Return u →
  let path := js "/view/album/" ++ u ++ js "/o" ++ pageSegment (default 0%Z page) in
  getLikes service this username page log =
  (outcome service (request_of this path no_options) ≫= postsOrEmpty,
   log ++ [request_of this path no_options]).
Proof.
  intros H. unfold getLikes. cbv zeta.
  rewrite bind_lift, H, bind_fetchJSON. apply bind_outcome.
Qed.

Lemma getThumbnail_run service this postId p log :
  encodeURIComponent postId = Return p →
  getThumbnail service this postId log =
  (outcome service (request_of this (js "/view/post/" ++ p) no_options) ≫= thumbnailUrl,
   log ++ [request_of this (js "/view/post/" ++ p) no_options]).
Proof.
  intros H. unfold getThumbnail. unfold mbind at 1. unfold Fetch.io_bind.
  rewrite (getPost_run _ _ _ _ _ H). apply bind_outcome.
Qed.

(** ** Request paths *)

(** C3: the page segment is appended only when the page is above zero.
    With the page omitted, zero or negative, the path ends with the last
    fixed or encoded segment (nothing is appended, neither a slash nor
    "/0"); with a positive page below 2^53, "/" and the decimal page number
    follow.  The four paths of the specification are requested as
    written. *)
Theorem page_segment_only_when_positive
        service this (tag username albumId : JS.value) (page : option Z)
        (t u a : jsstring) :
  encodeURIComponent tag = Return t →
  encodeURIComponent username = Return u →
  encodeURIComponent albumId = Return a →
  ((page = None ∨ ∃ n, page = Some n ∧ (n <= 0)%Z) →
     requested (getPostsByTag service this tag page)
       = [baseUrl this ++ js "/get/tag/" ++ t] ∧
     requested (getPostsByUser service this username page)
       = [baseUrl this ++ js "/view/album/" ++ u ++ js "/3"] ∧
     requested (getLikes service this username page)
       = [baseUrl this ++ js "/view/album/" ++ u ++ js "/o"] ∧
     requested (getAlbum service this username albumId page)
       = [baseUrl this ++ js "/view/album/" ++ u ++ js "/" ++ a]) ∧
  (∀ n, page = Some n → (0 < n < 2 ^ 53)%Z →
     requested (getPostsByTag service this tag page)
       = [baseUrl this ++ js "/get/tag/" ++ t ++ js "/" ++ NumberToString n] ∧
     requested (getPostsByUser service this username page)
       = [baseUrl this ++ js "/view/album/" ++ u ++ js "/3" ++ js "/" ++ NumberToString n] ∧
     requested (getLikes service this username page)
       = [baseUrl this ++ js "/view/album/" ++ u ++ js "/o" ++ js "/" ++ NumberToString n] ∧
     requested (getAlbum service this username albumId page)
       = [baseUrl this ++ js "/view/album/" ++ u ++ js "/" ++ a ++ js "/" ++ NumberToString n]) ∧
  (let api := constructor None ∅ in
   requested (getPostsByTag service api (VStr (js "foo")) (Some 0%Z))
     = [js "https://solar.furtrack.com/get/tag/foo"] ∧
   requested (getPostsByUser service api (VStr (js "user")) (Some 2%Z))
     = [js "https://solar.furtrack.com/view/album/user/3/2"] ∧
   requested (getLikes service api (VStr (js "user")) (Some 1%Z))
     = [js "https://solar.furtrack.com/view/album/user/o/1"] ∧
   requested (getAlbum service api (VStr (js "user")) (VStr (js "albumid")) (Some 0%Z))
     = [js "https://solar.furtrack.com/view/album/user/albumid"]).
Proof.
  intros Ht Hu Ha. unfold requested.
  split; [| split].
  - intros Hpage.
    assert (Hseg : pageSegment (default 0%Z page) = []).
    { destruct Hpage as [-> | (n & -> & Hn)]; [reflexivity |].
      change (default 0%Z (Some n)) with n. unfold pageSegment.
      destruct (0 <? n)%Z eqn:E; [apply Z.ltb_lt in E; lia | reflexivity]. }
    rewrite (getPostsByTag_run _ _ _ _ _ _ Ht), (getPostsByUser_run _ _ _ _ _ _ Hu),
      (getLikes_run _ _ _ _ _ _ Hu), (getAlbum_run _ _ _ _ _ _ _ _ Hu Ha).
    cbv zeta. rewrite Hseg. cbn [snd urls map app Fetch.url request_of].
    rewrite !app_nil_r. done.
  - intros n -> [Hn _].
    assert (Hseg : pageSegment n = js "/" ++ NumberToString n).
    { unfold pageSegment. destruct (0 <? n)%Z eqn:E; [reflexivity |].
      apply Z.ltb_ge in E. lia. }
    rewrite (getPostsByTag_run _ _ _ _ _ _ Ht), (getPostsByUser_run _ _ _ _ _ _ Hu),
      (getLikes_run _ _ _ _ _ _ Hu), (getAlbum_run _ _ _ _ _ _ _ _ Hu Ha).
    cbv zeta. change (default 0%Z (Some n)) with n. rewrite Hseg.
    cbn [snd urls map app Fetch.url request_of]. done.
  - cbv zeta.
    rewrite (getPostsByTag_run _ _ (VStr (js "foo")) _ (js "foo") _ eq_refl),
      (getPostsByUser_run _ _ (VStr (js "user")) _ (js "user") _ eq_refl),
      (getLikes_run _ _ (VStr (js "user")) _ (js "user") _ eq_refl),
      (getAlbum_run _ _ (VStr (js "user")) (VStr (js "albumid")) _
                    (js "user") (js "albumid") _ eq_refl eq_refl).
    cbn [snd urls map app Fetch.url request_of]. split_and!; reflexivity.
Qed.

(** ** Decimal numerals *)

Lemma uint_units_inj (d d' : Decimal.uint) :
  uint_units d = uint_units d' → d = d'.
Proof.
  revert d'. induction d; destruct d'; cbn [uint_units]; intros H;
    try discriminate H; try reflexivity;
    injection H as H; f_equal; auto.
Qed.

Lemma uint_units_no_minus (d : Decimal.uint) (r : jsstring) :
  uint_units d ≠ 45 :: r.
Proof. destruct d; discriminate. Qed.

Lemma to_uint_inj (p q : positive) : Pos.to_uint p = Pos.to_uint q → p = q.
Proof.
  intros H. pose proof (DecimalPos.Unsigned.of_to p) as Hp.
  rewrite H, DecimalPos.Unsigned.of_to in Hp. by injection Hp.
Qed.

Lemma to_uint_not_zero (p : positive) : Pos.to_uint p ≠ Decimal.D0 Decimal.Nil.
Proof.
  intros H. pose proof (DecimalPos.Unsigned.of_to p) as Hp.
  rewrite H in Hp. discriminate Hp.
Qed.

(** Distinct integers have distinct numerals. *)
Lemma NumberToString_inj (x y : Z) : NumberToString x = NumberToString y → x = y.
Proof.
  destruct x as [|p|p], y as [|q|q]; cbn [NumberToString js app]; intros H;
    try reflexivity.
  - symmetry in H. apply (uint_units_inj _ (Decimal.D0 Decimal.Nil)) in H.
    by apply to_uint_not_zero in H.
  - discriminate H.
  - apply (uint_units_inj _ (Decimal.D0 Decimal.Nil)) in H.
    by apply to_uint_not_zero in H.
  - by apply uint_units_inj, to_uint_inj in H as ->.
  - by apply uint_units_no_minus in H.
  - discriminate H.
  - symmetry in H. by apply uint_units_no_minus in H.
  - injection H as H. by apply uint_units_inj, to_uint_inj in H as ->.
Qed.

(** ** Response status *)


(** ** Response unwrapping *)

Lemma list_fetch_run op this arg page seg log body :
  op ∈ list_fetch →
  encodeURIComponent arg = Return seg →
  fst (op (always (ok_json body)) this arg page log) = postsOrEmpty body.
Proof.
  intros Hop Harg. unfold list_fetch in Hop.
  repeat (apply elem_of_cons in Hop as [-> | Hop]).
  - by rewrite (getPostsByTag_run _ _ _ _ _ _ Harg).
  - by rewrite (getPostsByUser_run _ _ _ _ _ _ Harg).
  - by rewrite (getLikes_run _ _ _ _ _ _ Harg).
  - by apply elem_of_nil in Hop.
Qed.

(** C4, as the code has it: from a successful response whose body is a
    JSON object, each list-fetch method returns the [posts] field when it
    is present and truthy (the body [{posts:[1,2]}] gives [[1,2]]), and the
    empty array when the key is absent (the body [{}] gives [[]]). *)
Theorem list_fetch_unwraps_posts op this arg page seg log :
  op ∈ list_fetch →
  encodeURIComponent arg = Return seg →
  (∀ props v, lookup_prop (js "posts") props = Some v → ToBoolean v = true →
     fst (op (always (ok_json (VObj props))) this arg page log) = Return v) ∧
  (∀ props, lookup_prop (js "posts") props = None →
     fst (op (always (ok_json (VObj props))) this arg page log) = Return (VArr [])) ∧
  fst (op (always (ok_json (VObj [(js "posts", VArr [VNum 1; VNum 2])]))) this arg page log)
    = Return (VArr [VNum 1; VNum 2]) ∧
  fst (op (always (ok_json (VObj []))) this arg page log) = Return (VArr []).
Proof.
  intros Hop Harg.
  split_and!; intros; rewrite (list_fetch_run _ _ _ _ _ _ _ Hop Harg);
    unfold postsOrEmpty, Get; cbn [mbind completion_bind].
  - match goal with
    | Hv : lookup_prop _ _ = Some _, Hb : ToBoolean _ = true |- _ =>
        rewrite Hv; simpl; by rewrite Hb
    end.
  - match goal with Hv : lookup_prop _ _ = None |- _ => by rewrite Hv end.
  - reflexivity.
  - reflexivity.
Qed.

(** C10: each list-fetch method returns the empty array whenever the body
    maps [posts] to a falsy value, such as [null], [false], [0] or the
    empty string, as it does when the key is absent; the falsy value is
    neither returned nor rejected. *)
Theorem list_fetch_falsy_posts op this arg page seg log :
  op ∈ list_fetch →
  encodeURIComponent arg = Return seg →
  (∀ props v, lookup_prop (js "posts") props = Some v → ToBoolean v = false →
     fst (op (always (ok_json (VObj props))) this arg page log) = Return (VArr [])) ∧
  (∀ props v, v ∈ [VNull; VBool false; VNum 0; VStr (js "")] →
     lookup_prop (js "posts") props = Some v →
     fst (op (always (ok_json (VObj props))) this arg page log) = Return (VArr [])) ∧
  (∀ props, lookup_prop (js "posts") props = None →
     fst (op (always (ok_json (VObj props))) this arg page log) = Return (VArr [])).
Proof.
  intros Hop Harg.
  assert (Hfalsy : ∀ props v, lookup_prop (js "posts") props = Some v →
            ToBoolean v = false →
            fst (op (always (ok_json (VObj props))) this arg page log) = Return (VArr [])).
  { intros props v Hv Hb. rewrite (list_fetch_run _ _ _ _ _ _ _ Hop Harg).
    unfold postsOrEmpty, Get; cbn [mbind completion_bind].
    rewrite Hv. simpl. by rewrite Hb. }
  split_and!.
  - exact Hfalsy.
  - intros props v Hin Hv. apply (Hfalsy props v Hv).
    repeat (apply elem_of_cons in Hin as [-> | Hin]); try reflexivity.
    by apply elem_of_nil in Hin.
  - intros props Hnone. rewrite (list_fetch_run _ _ _ _ _ _ _ Hop Harg).
    unfold postsOrEmpty, Get; cbn [mbind completion_bind]. by rewrite Hnone.
Qed.

(** At the body [{posts: null}] the [posts] field is present and its value
    is [null], but [getPostsByTag] returns the empty array, not that
    value. *)
Lemma list_fetch_null_posts_counterexample :
  let props := [(js "posts", VNull)] in
  lookup_prop (js "posts") props = Some VNull ∧
  fst (getPostsByTag (always (ok_json (VObj props))) (constructor None ∅)
                     (VStr (js "foo")) None [])
    = Return (VArr []) ∧
  fst (getPostsByTag (always (ok_json (VObj props))) (constructor None ∅)
                     (VStr (js "foo")) None [])
    ≠ Return VNull.
Proof.
  cbv zeta.
  rewrite (getPostsByTag_run _ _ (VStr (js "foo")) None (js "foo") [] eq_refl).
  split_and!; [reflexivity | reflexivity | discriminate].
Qed.

(** ** Thumbnail URL *)

Lemma thumbnailUrl_fields props
      (submitUserId id metaFingerprint metaFiletype : JS.value)
      (s1 s2 s3 s4 : jsstring) :
  lookup_prop (js "submitUserId") props = Some submitUserId →
  lookup_prop (js "id") props = Some id →
  lookup_prop (js "metaFingerprint") props = Some metaFingerprint →
  lookup_prop (js "metaFiletype") props = Some metaFiletype →
  ToString submitUserId = Return s1 →
  ToString id = Return s2 →
  ToString metaFingerprint = Return s3 →
  ToString metaFiletype = Return s4 →
  thumbnailUrl (VObj props)
    = Return (js "https://orca2.furtrack.com/gallery/" ++ s1 ++ js "/" ++ s2
              ++ js "-" ++ s3 ++ js "." ++ s4).
Proof.
  intros H1 H2 H3 H4 T1 T2 T3 T4. unfold thumbnailUrl, Get.
  rewrite H1, H2, H3, H4. simpl default. cbn [mbind completion_bind].
  rewrite T1. cbn [mbind completion_bind]. rewrite T2. cbn [mbind completion_bind].
  rewrite T3. cbn [mbind completion_bind]. rewrite T4. reflexivity.
Qed.

Lemma getThumbnail_ok this postId p log body :
  encodeURIComponent postId = Return p →
  fst (getThumbnail (always (ok_json body)) this postId log) = thumbnailUrl body.
Proof. intros Hp. by rewrite (getThumbnail_run _ _ _ _ _ Hp). Qed.

(** [ToString] returns the string form of every value that has one. *)
Lemma string_form_ToString (v : JS.value) (s : jsstring) :
  string_form v s → ToString v = Return s.
Proof.
  intros H.
  apply (string_form_scheme
           (fun v s => ToString v = Return s)
           (fun l s => ToString (VArr l) = Return s)
           (fun e s => match e with
                       | VUndefined | VNull => Return []
                       | _ => ToString e
                       end = Return s));
    try reflexivity; try exact H; clear v s H.
  - intros elements s _ IH. exact IH.
  - intros props Hnone. cbn [ToString]. by rewrite Hnone.
  - intros e s _ IH. cbn [ToString]. by rewrite IH.
  - intros e s e' rest r _ IHe _ IHrest. cbn [ToString] in *.
    rewrite IHe. cbn [mbind completion_bind].
    change (completion_bind _ _ ?f ?c) with (c ≫= f) in IHrest.
    by rewrite IHrest.
  - intros v s Hu Hn _ IH. destruct v; try done.
Qed.

(** At a post whose [submitUserId] is an object with an own [toString]
    property, the four fields are present but [getThumbnail] fails with a
    [TypeError] and returns no URL. *)
Lemma getThumbnail_object_field_counterexample :
  let post := [ (js "submitUserId", VObj [(js "toString", VNum 1)]);
                (js "id", VNum 99);
                (js "metaFingerprint", VStr (js "abc"));
                (js "metaFiletype", VStr (js "jpg")) ] in
  is_Some (lookup_prop (js "submitUserId") post) ∧
  is_Some (lookup_prop (js "id") post) ∧
  is_Some (lookup_prop (js "metaFingerprint") post) ∧
  is_Some (lookup_prop (js "metaFiletype") post) ∧
  fst (getThumbnail (always (ok_json (VObj post))) (constructor None ∅) (VNum 99) [])
    = Throw TypeError.
Proof.
  cbv zeta.
  rewrite (getThumbnail_ok (constructor None ∅) (VNum 99) (js "99") [] _ eq_refl).
  split_and!; [by eexists | by eexists | by eexists | by eexists | reflexivity].
Qed.

(** C8, as the code has it: for a post object whose four fields each have
    a string form, [getThumbnail] returns the fixed template with the
    string form of each field in its place; the post
    [{submitUserId:42, id:99, metaFingerprint:"abc", metaFiletype:"jpg"}]
    gives exactly "https://orca2.furtrack.com/gallery/42/99-abc.jpg". *)
Theorem getThumbnail_template this postId p log props
        (submitUserId id metaFingerprint metaFiletype : JS.value)
        (s1 s2 s3 s4 : jsstring) :
  encodeURIComponent postId = Return p →
  lookup_prop (js "submitUserId") props = Some submitUserId →
  lookup_prop (js "id") props = Some id →
  lookup_prop (js "metaFingerprint") props = Some metaFingerprint →
  lookup_prop (js "metaFiletype") props = Some metaFiletype →
  string_form submitUserId s1 →
  string_form id s2 →
  string_form metaFingerprint s3 →
  string_form metaFiletype s4 →
  fst (getThumbnail (always (ok_json (VObj props))) this postId log)
    = Return (js "https://orca2.furtrack.com/gallery/" ++ s1 ++ js "/" ++ s2
              ++ js "-" ++ s3 ++ js "." ++ s4) ∧
  fst (getThumbnail
         (always (ok_json (VObj [ (js "submitUserId", VNum 42); (js "id", VNum 99);
                                  (js "metaFingerprint", VStr (js "abc"));
                                  (js "metaFiletype", VStr (js "jpg")) ])))
         this postId log)
    = Return (js "https://orca2.furtrack.com/gallery/42/99-abc.jpg").
Proof.
  intros Hp H1 H2 H3 H4 T1%string_form_ToString T2%string_form_ToString
    T3%string_form_ToString T4%string_form_ToString.
  rewrite !(getThumbnail_ok _ _ _ _ _ Hp).
  split; [by eapply thumbnailUrl_fields | reflexivity].
Qed.

(** ** Percent-encoding *)

Lemma base64_digits (cp : N) :
  ∃ d0 d1 d2 d3,
    cp mod 64 = d0 ∧ (cp / 64) mod 64 = d1 ∧ (cp / 4096) mod 64 = d2 ∧
    cp / 262144 = d3 ∧ cp / 64 = d1 + 64 * d2 + 4096 * d3 ∧
    cp / 4096 = d2 + 64 * d3 ∧
    d0 < 64 ∧ d1 < 64 ∧ d2 < 64 ∧ cp = d0 + 64 * d1 + 4096 * d2 + 262144 * d3.
Proof.
  exists (cp mod 64), ((cp / 64) mod 64), ((cp / 4096) mod 64), (cp / 262144).
  assert (H4096 : cp / 4096 = cp / 64 / 64) by (by rewrite N.Div0.div_div).
  assert (H262144 : cp / 262144 = cp / 4096 / 64) by (by rewrite N.Div0.div_div).
  pose proof (N.div_mod' cp 64) as E0.
  pose proof (N.div_mod' (cp / 64) 64) as E1.
  pose proof (N.div_mod' (cp / 4096) 64) as E2.
  pose proof (N.mod_lt cp 64 ltac:(discriminate)) as B0.
  pose proof (N.mod_lt (cp / 64) 64 ltac:(discriminate)) as B1.
  pose proof (N.mod_lt (cp / 4096) 64 ltac:(discriminate)) as B2.
  rewrite H262144. rewrite <- H4096 in E1.
  split_and!; try reflexivity; try assumption; lia.
Qed.

Lemma hex_digit_value (n : N) : n < 16 → hex_value (hex_digit n) = Some n.
Proof.
  intros Hn. unfold hex_digit, hex_value, is_digit.
  destruct (N.ltb_spec n 10) as [H|H].
  - replace (48 <=? 48 + n) with true by (symmetry; apply N.leb_le; lia).
    replace (48 + n <=? 57) with true by (symmetry; apply N.leb_le; lia).
    cbn [andb]. f_equal. lia.
  - replace (55 + n <=? 57) with false by (symmetry; apply N.leb_gt; lia).
    rewrite andb_false_r.
    replace (65 <=? 55 + n) with true by (symmetry; apply N.leb_le; lia).
    replace (55 + n <=? 70) with true by (symmetry; apply N.leb_le; lia).
    cbn [andb]. f_equal. lia.
Qed.

(** Settle every comparison in the goal that linear arithmetic decides. *)
Ltac settle_tests :=
  repeat match goal with
  | |- context [?a <? ?b] =>
      first [ replace (a <? b) with true by (symmetry; apply N.ltb_lt; lia)
            | replace (a <? b) with false by (symmetry; apply N.ltb_ge; lia) ]
  | |- context [?a <=? ?b] =>
      first [ replace (a <=? b) with true by (symmetry; apply N.leb_le; lia)
            | replace (a <=? b) with false by (symmetry; apply N.leb_gt; lia) ]
  end;
  cbn [andb orb negb].

Lemma hex_digit_unescaped (n : N) : n < 16 → uriUnescaped (hex_digit n) = true.
Proof.
  intros Hn. unfold uriUnescaped, hex_digit, uriAlpha, is_digit.
  destruct (N.ltb_spec n 10) as [H|H]; settle_tests; reflexivity.
Qed.

Lemma uriUnescaped_bound (c : N) : uriUnescaped c = true → c < 128 ∧ c ≠ 37.
Proof.
  unfold uriUnescaped, uriAlpha, is_digit.
  rewrite !orb_true_iff, !andb_true_iff, !N.leb_le, existsb_exists.
  intros [[[H|H]|H]|(x & Hx & E)]; [lia | lia | lia |].
  apply N.eqb_eq in E. subst x. vm_compute in Hx.
  repeat (destruct Hx as [<- | Hx]; [split; [reflexivity | discriminate] |]).
  destruct Hx.
Qed.

Lemma utf8_octets_bound (cp : N) :
  cp < 0x110000 → Forall (fun o => o < 256) (utf8_octets cp).
Proof.
  intros Hcp. unfold utf8_octets.
  destruct (base64_digits cp) as (d0 & d1 & d2 & d3 & -> & -> & -> & -> & E1 & E2 & B).
  destruct (N.ltb_spec cp 0x80); [repeat constructor; lia |].
  destruct (N.ltb_spec cp 0x800); [repeat constructor; lia |].
  destruct (N.ltb_spec cp 0x10000); repeat constructor; lia.
Qed.

Lemma hex_digits (o : N) :
  o < 256 → ∃ h l, o / 16 = h ∧ o mod 16 = l ∧ h < 16 ∧ l < 16 ∧ o = 16 * h + l.
Proof.
  intros Ho. exists (o / 16), (o mod 16).
  pose proof (N.div_mod' o 16) as E.
  pose proof (N.mod_lt o 16 ltac:(discriminate)) as B.
  generalize dependent (o / 16). generalize dependent (o mod 16).
  intros l Hl h Hh. split_and!; try reflexivity; lia.
Qed.

Lemma unescape_escape_octet (o : N) (r : jsstring) :
  o < 256 →
  unescape (escape_octet o ++ r) = ts ← unescape r; Return (Octet o :: ts).
Proof.
  intros Ho. unfold escape_octet. cbn [app unescape].
  change (37 =? 37) with true. cbn iota.
  destruct (hex_digits o Ho) as (h & l & -> & -> & Hh & Hl & ->).
  by rewrite !hex_digit_value by assumption.
Qed.

Lemma unescape_escape_octets (os : list N) (r : jsstring) :
  Forall (fun o => o < 256) os →
  unescape (concat (map escape_octet os) ++ r)
  = ts ← unescape r; Return (map Octet os ++ ts).
Proof.
  induction 1 as [|o os Ho _ IH]; cbn [map concat app].
  - by destruct (unescape r).
  - rewrite <- app_assoc, unescape_escape_octet, IH by exact Ho.
    by destruct (unescape r).
Qed.

Lemma escape_octets_safe (os : list N) :
  Forall (fun o => o < 256) os →
  Forall (fun c => uriUnescaped c = true ∨ c = 37) (concat (map escape_octet os)).
Proof.
  induction 1 as [|o os Ho _ IH]; cbn [map concat]; [constructor |].
  destruct (hex_digits o Ho) as (h & l & Eh & El & Hh & Hl & _).
  unfold escape_octet. rewrite Eh, El. cbn [app].
  repeat apply Forall_cons_2; [by right | left | left | exact IH];
    by apply hex_digit_unescaped.
Qed.

(** Decoding the octets of a code point of the Basic Multilingual Plane
    that is not a surrogate gives back the code point as one unit. *)
Lemma utf8_decode_bmp (cp : N) (ts : list token) :
  cp < 0x10000 → is_leading_surrogate cp = false → is_trailing_surrogate cp = false →
  utf8_decode (map Octet (utf8_octets cp) ++ ts)
  = r ← utf8_decode ts; Return (cp :: r).
Proof.
  unfold is_leading_surrogate, is_trailing_surrogate.
  rewrite !andb_false_iff, !N.leb_gt. intros Hcp Hl Ht. unfold utf8_octets.
  assert (Hs : cp < 0xD800 ∨ 0xDFFF < cp) by lia. clear Hl Ht.
  destruct (base64_digits cp) as (d0 & d1 & d2 & d3 & -> & -> & -> & -> & E1 & E2 & B).
  destruct (N.ltb_spec cp 0x80).
  { cbn [map app utf8_decode]. settle_tests. reflexivity. }
  destruct (N.ltb_spec cp 0x800).
  { rewrite E1. cbn [map app utf8_decode]. unfold is_continuation. settle_tests.
    replace ((192 + (d1 + 64 * d2 + 4096 * d3) - 192) * 64 + (128 + d0 - 128)) with cp by lia.
    reflexivity. }
  destruct (N.ltb_spec cp 0x10000); [| lia].
  rewrite E2. cbn [map app utf8_decode]. unfold is_continuation.
  destruct Hs; settle_tests.
  all:
  replace ((224 + (d2 + 64 * d3) - 224) * 4096 + (128 + d1 - 128) * 64 + (128 + d0 - 128))
    with cp by lia.
  all: reflexivity.
Qed.

(** Decoding the octets of a supplementary code point gives back its
    surrogate pair. *)
Lemma utf8_decode_pair (c d : N) (ts : list token) :
  is_leading_surrogate c = true → is_trailing_surrogate d = true →
  utf8_decode (map Octet (utf8_octets ((c - 0xD800) * 0x400 + (d - 0xDC00) + 0x10000)) ++ ts)
  = r ← utf8_decode ts; Return (c :: d :: r).
Proof.
  unfold is_leading_surrogate, is_trailing_surrogate.
  rewrite !andb_true_iff, !N.leb_le. intros Hc Hd.
  assert (∃ x y, c = 0xD800 + x ∧ d = 0xDC00 + y ∧ x < 1024 ∧ y < 1024)
    as (x & y & -> & -> & Hx & Hy).
  { exists (c - 0xD800), (d - 0xDC00). lia. }
  replace (0xD800 + x - 0xD800) with x by lia.
  replace (0xDC00 + y - 0xDC00) with y by lia.
  set (cp := x * 0x400 + y + 0x10000).
  assert (Hcp : 0x10000 <= cp < 0x110000) by (subst cp; lia).
  assert (Hdiv : (cp - 0x10000) / 0x400 = x ∧ (cp - 0x10000) mod 0x400 = y).
  { replace (cp - 0x10000) with (y + x * 0x400) by (subst cp; lia).
    rewrite N.div_add, N.Div0.mod_add by discriminate.
    rewrite N.div_small, N.mod_small by exact Hy. done. }
  destruct Hdiv as [Hq Hr].
  unfold utf8_octets.
  destruct (base64_digits cp) as (d0 & d1 & d2 & d3 & -> & -> & -> & -> & E1 & E2 & B).
  destruct (N.ltb_spec cp 0x80); [lia |].
  destruct (N.ltb_spec cp 0x800); [lia |].
  destruct (N.ltb_spec cp 0x10000); [lia |].
  cbn [map app utf8_decode]. unfold is_continuation. settle_tests.
  replace ((240 + d3 - 240) * 262144 + (128 + d2 - 128) * 4096
           + (128 + d1 - 128) * 64 + (128 + d0 - 128)) with cp by lia.
  settle_tests. rewrite Hq, Hr. reflexivity.
Qed.

Lemma surrogate_not_unescaped (c : N) :
  uriUnescaped c = true →
  is_leading_surrogate c = false ∧ is_trailing_surrogate c = false.
Proof.
  intros [Hc _]%uriUnescaped_bound.
  unfold is_leading_surrogate, is_trailing_surrogate.
  split; apply andb_false_iff; left; apply N.leb_gt; lia.
Qed.

(** What [Encode] does with a string of code units: it succeeds exactly on
    the well-formed strings; its result holds only unescaped characters and
    ["%"], and reads back as the string. *)
Lemma Encode_spec (n : nat) (s : jsstring) :
  (length s ≤ n)%nat → Forall code_unit s →
  match Encode uriUnescaped s with
  | Return e =>
      isWellFormed s = true ∧
      Forall (fun c => uriUnescaped c = true ∨ c = 37) e ∧
      ∃ ts, unescape e = Return ts ∧ utf8_decode ts = Return s
  | Throw x => x = URIError ∧ isWellFormed s = false
  end.
Proof.
  revert s. induction n as [|n IH]; intros s Hlen Hs.
  { destruct s; [| cbn in Hlen; lia]. cbn. split_and!; [done | constructor |].
    by exists []. }
  destruct s as [|c rest]; [cbn; split_and!; [done | constructor | by exists []] |].
  apply Forall_cons in Hs as [Hc Hrest]. unfold code_unit in Hc.
  cbn [length] in Hlen. cbn [Encode isWellFormed].
  destruct (uriUnescaped c) eqn:Hu.
  { destruct (surrogate_not_unescaped c Hu) as [-> ->].
    destruct (uriUnescaped_bound c Hu) as [Hc128 Hc37].
    specialize (IH rest ltac:(lia) Hrest).
    destruct (Encode uriUnescaped rest) as [r|x]; cbn [mbind completion_bind]; [| exact IH].
    destruct IH as (Hwf & Hsafe & ts & Hts & Hdec). split_and!; [done | |].
    - constructor; [by left | exact Hsafe].
    - exists (Unit c :: ts). cbn [unescape].
      apply N.eqb_neq in Hc37. rewrite Hc37, Hts. cbn [mbind completion_bind utf8_decode].
      by rewrite Hdec. }
  destruct (is_trailing_surrogate c) eqn:Ht; [done |].
  destruct (is_leading_surrogate c) eqn:Hl.
  - destruct rest as [|d rest']; [done |].
    apply Forall_cons in Hrest as [Hd Hrest']. cbn [length] in Hlen.
    destruct (is_trailing_surrogate d) eqn:Hdt; [| done].
    specialize (IH rest' ltac:(lia) Hrest').
    destruct (Encode uriUnescaped rest') as [r|x]; cbn [mbind completion_bind andb];
      [| exact IH].
    destruct IH as (Hwf & Hsafe & ts & Hts & Hdec). split_and!; [done | |].
    + apply Forall_app. split; [| exact Hsafe].
      apply escape_octets_safe, utf8_octets_bound.
      unfold is_leading_surrogate, is_trailing_surrogate in Hl, Hdt.
      apply andb_true_iff in Hl as [_ Hl%N.leb_le], Hdt as [_ Hdt%N.leb_le]. lia.
    + exists (map Octet (utf8_octets ((c - 0xD800) * 0x400 + (d - 0xDC00) + 0x10000)) ++ ts).
      unfold escape_code_point. rewrite unescape_escape_octets, Hts.
      * split; [reflexivity |]. by rewrite utf8_decode_pair, Hdec.
      * apply utf8_octets_bound.
        unfold is_leading_surrogate, is_trailing_surrogate in Hl, Hdt.
        apply andb_true_iff in Hl as [_ Hl%N.leb_le], Hdt as [_ Hdt%N.leb_le]. lia.
  - specialize (IH rest ltac:(lia) Hrest).
    destruct (Encode uriUnescaped rest) as [r|x]; cbn [mbind completion_bind]; [| exact IH].
    destruct IH as (Hwf & Hsafe & ts & Hts & Hdec). split_and!; [done | |].
    + apply Forall_app. split; [| exact Hsafe].
      apply escape_octets_safe, utf8_octets_bound. lia.
    + exists (map Octet (utf8_octets c) ++ ts).
      unfold escape_code_point. rewrite unescape_escape_octets, Hts
        by (apply utf8_octets_bound; lia).
      split; [reflexivity |]. by rewrite utf8_decode_bmp, Hdec.
Qed.

(** A method whose argument cannot be encoded throws before it requests
    anything. *)

Lemma getTag_throw service this tag e log :
  encodeURIComponent tag = Throw e → getTag service this tag log = (Throw e, log).
Proof. intros H. unfold getTag. by rewrite bind_lift, H. Qed.

Lemma getUser_throw service this username e log :
  encodeURIComponent username = Throw e →
  getUser service this username log = (Throw e, log).
Proof. intros H. unfold getUser. by rewrite bind_lift, H. Qed.

Lemma getPost_throw service this postId e log :
  encodeURIComponent postId = Throw e →
  getPost service this postId log = (Throw e, log).
Proof. intros H. unfold getPost. by rewrite bind_lift, H. Qed.

Lemma getPostsByTag_throw service this tag page e log :
  encodeURIComponent tag = Throw e →
  getPostsByTag service this tag page log = (Throw e, log).
Proof. intros H. unfold getPostsByTag. cbv zeta. by rewrite bind_lift, H. Qed.

Lemma getPostsByUser_throw service this username page e log :
  encodeURIComponent username = Throw e →
  getPostsByUser service this username page log = (Throw e, log).
Proof. intros H. unfold getPostsByUser. cbv zeta. by rewrite bind_lift, H. Qed.

Lemma getLikes_throw service this username page e log :
  encodeURIComponent username = Throw e →
  getLikes service this username page log = (Throw e, log).
Proof. intros H. unfold getLikes. cbv zeta. by rewrite bind_lift, H. Qed.

Lemma getAlbum_throw_username service this username albumId page e log :
  encodeURIComponent username = Throw e →
  getAlbum service this username albumId page log = (Throw e, log).
Proof. intros H. unfold getAlbum. cbv zeta. by rewrite bind_lift, H. Qed.

Lemma getAlbum_throw_albumId service this username albumId page u e log :
  encodeURIComponent username = Return u →
  encodeURIComponent albumId = Throw e →
  getAlbum service this username albumId page log = (Throw e, log).
Proof.
  intros Hu H. unfold getAlbum. cbv zeta. by rewrite bind_lift, Hu, bind_lift, H.
Qed.

Lemma getThumbnail_throw service this postId e log :
  encodeURIComponent postId = Throw e →
  getThumbnail service this postId log = (Throw e, log).
Proof.
  intros H. unfold getThumbnail. unfold mbind at 1. unfold Fetch.io_bind.
  by rewrite (getPost_throw _ _ _ _ _ H).
Qed.

Lemma encodeURIComponent_string (s : jsstring) :
  Forall code_unit s →
  (isWellFormed s = true → ∃ e, percent_encoded s e) ∧
  (isWellFormed s = false → encodeURIComponent (VStr s) = Throw URIError).
Proof.
  intros Hs. pose proof (Encode_spec (length s) s (le_n _) Hs) as H.
  unfold percent_encoded, encodeURIComponent, decodeURIComponent.
  cbn [ToString mbind completion_bind].
  destruct (Encode uriUnescaped s) as [e|x].
  - destruct H as (Hwf & Hsafe & ts & Hts & Hdec). split; [| congruence].
    intros _. exists e. rewrite Hts. done.
  - destruct H as [-> Hwf]. split; [congruence | done].
Qed.

(** C6: every tag, username, post id and album id is passed through
    [encodeURIComponent] before it is put into the path.  For a well-formed
    string the segment in the requested URL is its percent-encoding: it
    holds only unescaped characters and "%", so no reserved character, and
    it decodes back to the string.  A string with an unpaired surrogate has
    no encoding, and the method throws before any request is made. *)
Theorem path_segments_percent_encoded
        service this (s : jsstring) (other : JS.value) (o : jsstring)
        (page : option Z) log :
  Forall code_unit s →
  encodeURIComponent other = Return o →
  (isWellFormed s = true →
     ∃ e, percent_encoded s e ∧
       requested (getTag service this (VStr s))
         = [baseUrl this ++ js "/get/index/" ++ e] ∧
       requested (getPostsByTag service this (VStr s) page)
         = [baseUrl this ++ js "/get/tag/" ++ e ++ pageSegment (default 0%Z page)] ∧
       requested (getUser service this (VStr s))
         = [baseUrl this ++ js "/get/u/" ++ e] ∧
       requested (getPostsByUser service this (VStr s) page)
         = [baseUrl this ++ js "/view/album/" ++ e ++ js "/3"
            ++ pageSegment (default 0%Z page)] ∧
       requested (getLikes service this (VStr s) page)
         = [baseUrl this ++ js "/view/album/" ++ e ++ js "/o"
            ++ pageSegment (default 0%Z page)] ∧
       requested (getAlbum service this (VStr s) other page)
         = [baseUrl this ++ js "/view/album/" ++ e ++ js "/" ++ o
            ++ pageSegment (default 0%Z page)] ∧
       requested (getAlbum service this other (VStr s) page)
         = [baseUrl this ++ js "/view/album/" ++ o ++ js "/" ++ e
            ++ pageSegment (default 0%Z page)] ∧
       requested (getPost service this (VStr s))
         = [baseUrl this ++ js "/view/post/" ++ e] ∧
       requested (getThumbnail service this (VStr s))
         = [baseUrl this ++ js "/view/post/" ++ e]) ∧
  (isWellFormed s = false →
     getTag service this (VStr s) log = (Throw URIError, log) ∧
     getPostsByTag service this (VStr s) page log = (Throw URIError, log) ∧
     getUser service this (VStr s) log = (Throw URIError, log) ∧
     getPostsByUser service this (VStr s) page log = (Throw URIError, log) ∧
     getLikes service this (VStr s) page log = (Throw URIError, log) ∧
     getAlbum service this (VStr s) other page log = (Throw URIError, log) ∧
     getAlbum service this other (VStr s) page log = (Throw URIError, log) ∧
     getPost service this (VStr s) log = (Throw URIError, log) ∧
     getThumbnail service this (VStr s) log = (Throw URIError, log)) ∧
  requested (getPostsByTag service (constructor None ∅) (VStr (js "a/b c?d")) None)
    = [js "https://solar.furtrack.com/get/tag/a%2Fb%20c%3Fd"] ∧
  requested (getPost service (constructor None ∅) (VNum 123))
    = [js "https://solar.furtrack.com/view/post/123"].
Proof.
  intros Hs Ho. destruct (encodeURIComponent_string s Hs) as [Hgood Hbad].
  split_and!.
  - intros Hwf. destruct (Hgood Hwf) as [e He]. exists e. split; [exact He |].
    destruct He as (He & _ & _). unfold requested.
    rewrite (getTag_run _ _ _ _ _ He), (getPostsByTag_run _ _ _ _ _ _ He),
      (getUser_run _ _ _ _ _ He), (getPostsByUser_run _ _ _ _ _ _ He),
      (getLikes_run _ _ _ _ _ _ He), (getAlbum_run _ _ _ _ _ _ _ _ He Ho),
      (getAlbum_run _ _ _ _ _ _ _ _ Ho He), (getPost_run _ _ _ _ _ He),
      (getThumbnail_run _ _ _ _ _ He).
    cbv zeta. cbn [snd urls map app Fetch.url request_of]. done.
  - intros Hwf. specialize (Hbad Hwf).
    rewrite (getTag_throw _ _ _ _ _ Hbad), (getPostsByTag_throw _ _ _ _ _ _ Hbad),
      (getUser_throw _ _ _ _ _ Hbad), (getPostsByUser_throw _ _ _ _ _ _ Hbad),
      (getLikes_throw _ _ _ _ _ _ Hbad), (getAlbum_throw_username _ _ _ _ _ _ _ Hbad),
      (getAlbum_throw_albumId _ _ _ _ _ _ _ _ Ho Hbad), (getPost_throw _ _ _ _ _ Hbad),
      (getThumbnail_throw _ _ _ _ _ Hbad).
    done.
  - unfold requested.
    by rewrite (getPostsByTag_run _ _ (VStr (js "a/b c?d")) None
                  (js "a%2Fb%20c%3Fd") [] eq_refl).
  - unfold requested.
    by rewrite (getPost_run _ _ (VNum 123) (js "123") [] eq_refl).
Qed.

(** * The properties at concrete inputs *)

Lemma parseTag_by_prefix_witness :
  parseTag (js "1:Fluffy") = {| type := TagTypes.Character; value := js "Fluffy" |} ∧
  parseTag (js "6Wolf") = {| type := TagTypes.Species; value := js "Wolf" |} ∧
  parseTag (js "randomtag") = {| type := TagTypes.General; value := js "randomtag" |}.
Proof.
  split_and!.
  - destruct (parseTag_by_prefix (js "1:Fluffy")) as (H & _).
    apply H. by exists (js "Fluffy").
  - destruct (parseTag_by_prefix (js "6Wolf")) as (_ & _ & _ & _ & H & _).
    apply H. by exists (js "Wolf").
  - destruct (parseTag_by_prefix (js "randomtag")) as (_ & _ & _ & _ & _ & H).
    apply H; intros [k Hk]; discriminate Hk.
Defined.

Lemma getTagsByType_filter_map_witness :
  getTagsByType [ {| tagName := js "2:Beta" |} ] TagTypes.Event = [].
Proof.
  destruct (getTagsByType_filter_map [ {| tagName := js "2:Beta" |} ] TagTypes.Event)
    as (_ & _ & _ & H).
  apply H. intros tag Hin.
  apply elem_of_cons in Hin as [-> | Hin]; [discriminate |].
  by apply elem_of_nil in Hin.
Defined.

Lemma setHeaders_shallow_merge_witness :
  defaultHeaders (setHeaders {[ js "X-Test" := js "foo" ]} (constructor None ∅))
    !! js "X-Test" = Some (js "foo") ∧
  defaultHeaders (setHeaders {[ js "X-Test" := js "foo" ]} (constructor None ∅))
    !! js "Accept" = defaultHeaders (constructor None ∅) !! js "Accept".
Proof.
  split.
  - destruct (setHeaders_shallow_merge (constructor None ∅)
                {[ js "X-Test" := js "foo" ]} (js "X-Test")) as (H & _).
    apply H. reflexivity.
  - destruct (setHeaders_shallow_merge (constructor None ∅)
                {[ js "X-Test" := js "foo" ]} (js "Accept")) as (_ & H & _).
    apply H. reflexivity.
Defined.

Lemma page_segment_only_when_positive_witness :
  requested (getPostsByTag (always (ok_json (VObj []))) (constructor None ∅)
                           (VStr (js "foo")) (Some 2%Z))
    = [js "https://solar.furtrack.com/get/tag/foo/2"] ∧
  requested (getAlbum (always (ok_json (VObj []))) (constructor None ∅)
                      (VStr (js "user")) (VStr (js "albumid")) None)
    = [js "https://solar.furtrack.com/view/album/user/albumid"].
Proof.
  split.
  - destruct (page_segment_only_when_positive
                (always (ok_json (VObj []))) (constructor None ∅)
                (VStr (js "foo")) (VStr (js "user")) (VStr (js "albumid")) (Some 2%Z)
                (js "foo") (js "user") (js "albumid") eq_refl eq_refl eq_refl)
      as (_ & H & _).
    destruct (H 2%Z eq_refl (conj eq_refl eq_refl)) as (H1 & _). exact H1.
  - destruct (page_segment_only_when_positive
                (always (ok_json (VObj []))) (constructor None ∅)
                (VStr (js "foo")) (VStr (js "user")) (VStr (js "albumid")) None
                (js "foo") (js "user") (js "albumid") eq_refl eq_refl eq_refl)
      as (H & _).
    destruct (H (or_introl eq_refl)) as (_ & _ & _ & H4). exact H4.
Defined.


Lemma getPostsByTag_in_list_fetch : getPostsByTag ∈ list_fetch.
Proof. unfold list_fetch. left. Defined.

Lemma list_fetch_unwraps_posts_witness :
  fst (getPostsByTag (always (ok_json (VObj [(js "posts", VArr [VNum 3; VNum 4])])))
                     (constructor None ∅) (VStr (js "foo")) None [])
    = Return (VArr [VNum 3; VNum 4]) ∧
  fst (getPostsByTag (always (ok_json (VObj [(js "total", VNum 0)])))
                     (constructor None ∅) (VStr (js "foo")) None [])
    = Return (VArr []).
Proof.
  destruct (list_fetch_unwraps_posts getPostsByTag (constructor None ∅)
              (VStr (js "foo")) None (js "foo") []
              getPostsByTag_in_list_fetch eq_refl) as (H1 & H2 & _).
  split.
  - apply (H1 [(js "posts", VArr [VNum 3; VNum 4])]); reflexivity.
  - apply (H2 [(js "total", VNum 0)]). reflexivity.
Defined.

Lemma list_fetch_falsy_posts_witness :
  fst (getPostsByTag (always (ok_json (VObj [(js "posts", VNum 0)])))
                     (constructor None ∅) (VStr (js "foo")) None [])
    = Return (VArr []).
Proof.
  destruct (list_fetch_falsy_posts getPostsByTag (constructor None ∅)
              (VStr (js "foo")) None (js "foo") []
              getPostsByTag_in_list_fetch eq_refl) as (H & _).
  apply (H [(js "posts", VNum 0)] (VNum 0)); reflexivity.
Defined.

Lemma getThumbnail_template_witness :
  fst (getThumbnail
         (always (ok_json (VObj [ (js "id", VNum 7); (js "submitUserId", VNum 1);
                                  (js "metaFiletype", VStr (js "png"));
                                  (js "metaFingerprint", VArr [VNull; VBool true]) ])))
         (constructor None ∅) (VNum 7) [])
    = Return (js "https://orca2.furtrack.com/gallery/1/7-,true.png").
Proof.
  assert (Hsafe1 : safe_integer 1) by (split; reflexivity).
  assert (Hsafe7 : safe_integer 7) by (split; reflexivity).
  assert (Harr : string_form (VArr [VNull; VBool true]) (js ",true")).
  { apply form_array.
    apply (joined_more VNull (js "") (VBool true) [] (js "true")).
    - apply element_null.
    - apply joined_last, element_value; [discriminate | discriminate | apply form_true]. }
  destruct (getThumbnail_template (constructor None ∅) (VNum 7) (js "7") []
              [ (js "id", VNum 7); (js "submitUserId", VNum 1);
                (js "metaFiletype", VStr (js "png"));
                (js "metaFingerprint", VArr [VNull; VBool true]) ]
              (VNum 1) (VNum 7) (VArr [VNull; VBool true]) (VStr (js "png"))
              (js "1") (js "7") (js ",true") (js "png")
              eq_refl eq_refl eq_refl eq_refl eq_refl
              (form_number 1 Hsafe1) (form_number 7 Hsafe7) Harr (form_string (js "png")))
    as (H & _).
  exact H.
Defined.

Lemma path_segments_percent_encoded_witness :
  ∃ e, percent_encoded (js "a/b") e ∧
       requested (getTag (always (ok_json (VObj []))) (constructor None ∅) (VStr (js "a/b")))
       = [js "https://solar.furtrack.com/get/index/" ++ e].
Proof.
  assert (Hunits : Forall code_unit (js "a/b")) by (repeat constructor).
  destruct (path_segments_percent_encoded
              (always (ok_json (VObj []))) (constructor None ∅) (js "a/b")
              (VStr (js "x")) (js "x") None [] Hunits eq_refl) as (H & _).
  destruct (H eq_refl) as (e & He & Htag & _).
  exists e. split; [exact He | exact Htag].
Defined.

(** * Further properties *)

(** ** The classifier as a bijection *)

Lemma startsWith_drop (s p : jsstring) :
  startsWith s p = true → p ++ drop (length p) s = s.
Proof.
  intros [k ->]%startsWith_prefix. by rewrite drop_app_length.
Qed.

(** The possible results of [parseTag], each with the shape of its input. *)
Lemma parseTag_cases (s : jsstring) :
  (∃ v, s = js "1:" ++ v ∧ parseTag s = {| type := TagTypes.Character; value := v |}) ∨
  (∃ v, s = js "2:" ++ v ∧ parseTag s = {| type := TagTypes.Maker; value := v |}) ∨
  (∃ v, s = js "3:" ++ v ∧ parseTag s = {| type := TagTypes.Photographer; value := v |}) ∨
  (∃ v, s = js "5:" ++ v ∧ parseTag s = {| type := TagTypes.Event; value := v |}) ∨
  (∃ v, s = js "6" ++ v ∧ parseTag s = {| type := TagTypes.Species; value := v |}) ∨
  ((∀ prefix ty, (prefix, ty) ∈ tagTypePrefixes → ¬ prefix `prefix_of` s) ∧
   parseTag s = {| type := TagTypes.General; value := s |}).
Proof.
  rewrite parseTag_cascade.
  destruct (startsWith s (js "1:")) eqn:E1.
  { left. exists (drop 2 s). split; [| done]. symmetry. exact (startsWith_drop _ _ E1). }
  destruct (startsWith s (js "2:")) eqn:E2.
  { right; left. exists (drop 2 s). split; [| done]. symmetry.
    exact (startsWith_drop _ _ E2). }
  destruct (startsWith s (js "3:")) eqn:E3.
  { do 2 right; left. exists (drop 2 s). split; [| done]. symmetry.
    exact (startsWith_drop _ _ E3). }
  destruct (startsWith s (js "5:")) eqn:E5.
  { do 3 right; left. exists (drop 2 s). split; [| done]. symmetry.
    exact (startsWith_drop _ _ E5). }
  destruct (startsWith s (js "6")) eqn:E6.
  { do 4 right; left. exists (drop 1 s). split; [| done]. symmetry.
    exact (startsWith_drop _ _ E6). }
  do 5 right. split; [| done]. intros prefix ty Hin Hp.
  apply startsWith_prefix in Hp. unfold tagTypePrefixes in Hin.
  repeat (apply elem_of_cons in Hin as [Hin | Hin];
          [replace prefix with (fst (prefix, ty)) in Hp by reflexivity;
           rewrite Hin in Hp; cbn [fst] in Hp; congruence |]).
  by apply elem_of_nil in Hin.
Qed.

Lemma unparseTag_parseTag (s : jsstring) : unparseTag (parseTag s) = s.
Proof.
  destruct (parseTag_cases s) as
    [(v & -> & ->)|[(v & -> & ->)|[(v & -> & ->)|[(v & -> & ->)|[(v & -> & ->)|[_ ->]]]]]];
    reflexivity.
Qed.

(** X1: [parseTag] loses nothing: putting the prefix of the parsed type
    back in front of the parsed value gives the tag string again, so two
    different tag strings never parse to the same type and value. *)
Theorem parseTag_unparse (s : jsstring) :
  unparseTag (parseTag s) = s ∧
  (∀ s', parseTag s = parseTag s' → s = s').
Proof.
  split; [apply unparseTag_parseTag |].
  intros s' H. rewrite <- (unparseTag_parseTag s), <- (unparseTag_parseTag s').
  by rewrite H.
Qed.

Lemma parseTag_type (s : jsstring) :
  type (parseTag s) ∈ [ TagTypes.Character; TagTypes.Maker; TagTypes.Photographer;
                        TagTypes.Species; TagTypes.Event; TagTypes.General ].
Proof.
  destruct (parseTag_cases s) as
    [(v & _ & ->)|[(v & _ & ->)|[(v & _ & ->)|[(v & _ & ->)|[(v & _ & ->)|[_ ->]]]]]];
    cbn [type]; set_solver.
Qed.

(** X2: the type [parseTag] returns is one of the six tag types, the value
    is what is left of the tag string after at most two leading code
    units, and the type is General exactly when nothing was removed. *)
Theorem parseTag_shape (s : jsstring) :
  type (parseTag s) ∈ [ TagTypes.Character; TagTypes.Maker; TagTypes.Photographer;
                        TagTypes.Species; TagTypes.Event; TagTypes.General ] ∧
  value (parseTag s) `suffix_of` s ∧
  (length s ≤ length (value (parseTag s)) + 2)%nat ∧
  (type (parseTag s) = TagTypes.General ↔ value (parseTag s) = s).
Proof.
  split; [apply parseTag_type |].
  destruct (parseTag_cases s) as
    [(v & -> & ->)|[(v & -> & ->)|[(v & -> & ->)|[(v & -> & ->)|[(v & -> & ->)|[_ ->]]]]]];
    cbn [type value].
  1-5: split_and!;
    [ by apply suffix_app_r
    | rewrite length_app; cbn; lia
    | split; [discriminate | intros H; apply (f_equal length) in H;
                             rewrite length_app in H; cbn in H; lia] ].
  split_and!; [done | lia | done].
Qed.

(** ** Filtering by type *)

Lemma getTagsByType_cons (tag : Tag) (rest : list Tag) (ty : jsstring) :
  getTagsByType (tag :: rest) ty =
  if bool_decide (type (parseTag (tagName tag)) = ty)
  then value (parseTag (tagName tag)) :: getTagsByType rest ty
  else getTagsByType rest ty.
Proof.
  unfold getTagsByType. cbn [map]. case_bool_decide as Hty.
  - by rewrite filter_cons_True.
  - by rewrite filter_cons_False.
Qed.

Lemma getTagsByType_elem (tags : list Tag) (ty v : jsstring) :
  v ∈ getTagsByType tags ty ↔
  ∃ tag, tag ∈ tags ∧ parseTag (tagName tag) = {| type := ty; value := v |}.
Proof.
  induction tags as [|tag rest IH].
  - split; [intros H; by apply elem_of_nil in H | intros (t & H & _); by apply elem_of_nil in H].
  - rewrite getTagsByType_cons. case_bool_decide as Hty.
    + rewrite elem_of_cons, IH. split.
      * intros [-> | (t & Ht & Hp)].
        -- exists tag. split; [left |]. destruct (parseTag (tagName tag)); cbn in *; by subst.
        -- exists t. split; [by right | done].
      * intros (t & [-> | Ht]%elem_of_cons & Hp).
        -- left. by rewrite Hp.
        -- right. by exists t.
    + rewrite IH. split.
      * intros (t & Ht & Hp). exists t. split; [by right | done].
      * intros (t & [-> | Ht]%elem_of_cons & Hp).
        -- rewrite Hp in Hty. done.
        -- by exists t.
Qed.

(** Evaluate the comparisons of two given type strings. *)
Ltac decide_types :=
  repeat match goal with
  | |- context [bool_decide (?a = ?b)] =>
      let r := eval vm_compute in (bool_decide (a = b)) in
      change (bool_decide (a = b)) with r
  end;
  cbn iota.

(** X3: the six tag types partition a tag list: the results of
    [getTagsByType] for the six types have as many elements together as
    the list has tags, and any other type string selects nothing. *)
Theorem getTagsByType_partition (tags : list Tag) :
  (length (getTagsByType tags TagTypes.Character)
   + length (getTagsByType tags TagTypes.Maker)
   + length (getTagsByType tags TagTypes.Photographer)
   + length (getTagsByType tags TagTypes.Species)
   + length (getTagsByType tags TagTypes.Event)
   + length (getTagsByType tags TagTypes.General) = length tags)%nat ∧
  (∀ ty, ty ∉ [ TagTypes.Character; TagTypes.Maker; TagTypes.Photographer;
                TagTypes.Species; TagTypes.Event; TagTypes.General ] →
         getTagsByType tags ty = []).
Proof.
  split.
  - induction tags as [|tag rest IH]; [reflexivity |].
    rewrite !getTagsByType_cons. cbn [length]. rewrite <- IH.
    destruct (parseTag_cases (tagName tag)) as
      [(v & _ & ->)|[(v & _ & ->)|[(v & _ & ->)|[(v & _ & ->)|[(v & _ & ->)|[_ ->]]]]]];
      cbn [type value]; decide_types; cbn [length]; lia.
  - intros ty Hty. induction tags as [|tag rest IH]; [reflexivity |].
    rewrite getTagsByType_cons, IH. case_bool_decide as H; [| done].
    exfalso. apply Hty. rewrite <- H. apply parseTag_type.
Qed.

Lemma parseTag_prefixed (prefix ty v : jsstring) :
  (prefix, ty) ∈ tagTypePrefixes →
  parseTag (prefix ++ v) = {| type := ty; value := v |}.
Proof.
  intros Hin. unfold tagTypePrefixes in Hin.
  repeat (apply elem_of_cons in Hin as [Hin | Hin];
          [replace prefix with (fst (prefix, ty)) by reflexivity;
           replace ty with (snd (prefix, ty)) at 2 by reflexivity;
           rewrite Hin; reflexivity |]).
  by apply elem_of_nil in Hin.
Qed.

(** X4: a value is returned for a prefixed type exactly when the list
    holds the tag made of that type's prefix and the value; it is returned
    for General exactly when the list holds it as a tag and it starts with
    none of the prefixes. *)
Theorem getTagsByType_member (tags : list Tag) (v : jsstring) :
  (∀ prefix ty, (prefix, ty) ∈ tagTypePrefixes →
     (v ∈ getTagsByType tags ty ↔ {| tagName := prefix ++ v |} ∈ tags)) ∧
  (v ∈ getTagsByType tags TagTypes.General ↔
     {| tagName := v |} ∈ tags ∧
     ∀ prefix ty, (prefix, ty) ∈ tagTypePrefixes → ¬ prefix `prefix_of` v).
Proof.
  split.
  - intros prefix ty Hin. rewrite getTagsByType_elem. split.
    + intros ([name] & Ht & Hp). cbn [tagName] in Hp.
      pose proof (unparseTag_parseTag name) as Hun.
      rewrite Hp, <- (parseTag_prefixed prefix ty v Hin), unparseTag_parseTag in Hun.
      by rewrite Hun.
    + intros Ht. exists {| tagName := prefix ++ v |}. split; [done |].
      by apply parseTag_prefixed.
  - rewrite getTagsByType_elem. split.
    + intros ([name] & Ht & Hp). cbn [tagName] in Hp.
      destruct (parseTag_cases name) as
        [(w & _ & E)|[(w & _ & E)|[(w & _ & E)|[(w & _ & E)|[(w & _ & E)|[Hno E]]]]]];
        rewrite E in Hp; try discriminate Hp.
      injection Hp as ->. done.
    + intros [Ht Hno]. exists {| tagName := v |}. split; [done |]. cbn [tagName].
      destruct (parseTag_cases v) as
        [(w & E & _)|[(w & E & _)|[(w & E & _)|[(w & E & _)|[(w & E & _)|[_ E]]]]]];
        [exfalso .. | exact E].
      * apply (Hno (js "1:") TagTypes.Character); [set_solver | by exists w].
      * apply (Hno (js "2:") TagTypes.Maker); [set_solver | by exists w].
      * apply (Hno (js "3:") TagTypes.Photographer); [set_solver | by exists w].
      * apply (Hno (js "5:") TagTypes.Event); [set_solver | by exists w].
      * apply (Hno (js "6") TagTypes.Species); [set_solver | by exists w].
Qed.

(** X5: [getTagsByType] can be applied to a tag list piece by piece: the
    result for a concatenation is the concatenation of the results, and
    the result is never longer than the list. *)
Theorem getTagsByType_app (tags more : list Tag) (ty : jsstring) :
  getTagsByType (tags ++ more) ty = getTagsByType tags ty ++ getTagsByType more ty ∧
  (length (getTagsByType tags ty) ≤ length tags)%nat.
Proof.
  split.
  - unfold getTagsByType. by rewrite map_app, filter_app, map_app.
  - unfold getTagsByType. rewrite length_map.
    etrans; [apply length_filter |]. by rewrite length_map.
Qed.

(** ** The configuration *)

(** X6: [setApiKey] stores the key and sets the Authorization header to
    "Bearer " followed by the key, leaving every other header as it was;
    a second call replaces the first, of which nothing is kept. *)
Theorem setApiKey_last_wins (this : Client) (key key' : jsstring) :
  apiKey (setApiKey key this) = Some key ∧
  defaultHeaders (setApiKey key this) !! js "Authorization" = Some (js "Bearer " ++ key) ∧
  (∀ name, name ≠ js "Authorization" →
     defaultHeaders (setApiKey key this) !! name = defaultHeaders this !! name) ∧
  setApiKey key' (setApiKey key this) = setApiKey key' this.
Proof.
  unfold setApiKey; cbn [apiKey baseUrl agent defaultHeaders].
  split_and!.
  - reflexivity.
  - apply lookup_insert_eq.
  - intros name Hne. by apply lookup_insert_ne.
  - by rewrite insert_insert_eq.
Qed.

(** X7: two calls of [setHeaders] are one call with the merged mapping, in
    which the later call's headers win; repeating a call changes nothing,
    and a call with no header changes nothing. *)
Theorem setHeaders_compose (this : Client) (h1 h2 : gmap jsstring jsstring) :
  setHeaders h2 (setHeaders h1 this) = setHeaders (h2 ∪ h1) this ∧
  setHeaders h1 (setHeaders h1 this) = setHeaders h1 this ∧
  setHeaders ∅ this = this.
Proof.
  unfold setHeaders; cbn [apiKey baseUrl agent defaultHeaders].
  split_and!.
  - by rewrite (assoc_L (∪)).
  - by rewrite (assoc_L (∪)), (idemp_L (∪)).
  - rewrite (left_id_L ∅ (∪)). by destruct this.
Qed.

(** X8: the stored key and the Authorization header are independent after
    [setHeaders]: a mapping that names Authorization replaces the bearer
    header while the stored key stays, a mapping that does not name it
    leaves the bearer header, and a later [setApiKey] puts it back. *)
Theorem setHeaders_over_bearer (this : Client) (key : jsstring)
        (h : gmap jsstring jsstring) :
  apiKey (setHeaders h (setApiKey key this)) = Some key ∧
  (∀ v, h !! js "Authorization" = Some v →
     defaultHeaders (setHeaders h (setApiKey key this)) !! js "Authorization" = Some v) ∧
  (h !! js "Authorization" = None →
     defaultHeaders (setHeaders h (setApiKey key this)) !! js "Authorization"
     = Some (js "Bearer " ++ key)) ∧
  defaultHeaders (setApiKey key (setHeaders h this)) !! js "Authorization"
    = Some (js "Bearer " ++ key).
Proof.
  unfold setHeaders, setApiKey; cbn [apiKey baseUrl agent defaultHeaders].
  split_and!.
  - reflexivity.
  - intros v Hv. by apply lookup_union_Some_l.
  - intros Hnone. rewrite lookup_union_r by exact Hnone. apply lookup_insert_eq.
  - apply lookup_insert_eq.
Qed.

Lemma builtinHeaders_dom (name : jsstring) :
  is_Some (builtinHeaders !! name) ↔
  name ∈ [js "User-Agent"; js "Accept"; js "Referer"; js "Origin"; js "Accept-Language"].
Proof.
  unfold builtinHeaders. split.
  - intros [v Hv]. apply elem_of_list_to_map_2 in Hv.
    repeat (apply elem_of_cons in Hv as [Hv | Hv];
            [replace name with (fst (name, v)) by reflexivity; rewrite Hv; set_solver |]).
    by apply elem_of_nil in Hv.
  - intros Hin.
    repeat (apply elem_of_cons in Hin as [-> | Hin]; [by eexists |]).
    by apply elem_of_nil in Hin.
Qed.

(** X9: the constructor puts the caller's headers over the built-in ones:
    a header the caller gives has the caller's value, one the caller does
    not give has its built-in value, and without a key the headers are
    exactly the caller's and the five built-in ones. *)
Theorem constructor_headers (headers : gmap jsstring jsstring) (name : jsstring) :
  (∀ v, headers !! name = Some v →
     defaultHeaders (constructor None headers) !! name = Some v) ∧
  (headers !! name = None →
     defaultHeaders (constructor None headers) !! name = builtinHeaders !! name) ∧
  (is_Some (defaultHeaders (constructor None headers) !! name) ↔
     is_Some (headers !! name) ∨
     name ∈ [js "User-Agent"; js "Accept"; js "Referer"; js "Origin"; js "Accept-Language"]).
Proof.
  cbn [constructor defaultHeaders]. split_and!.
  - intros v Hv. by apply lookup_union_Some_l.
  - intros Hnone. by apply lookup_union_r.
  - rewrite lookup_union_is_Some, builtinHeaders_dom. done.
Qed.

(** X10: constructing with a non-empty key is constructing without one and
    calling [setApiKey]; the bearer header then wins over an Authorization
    header of the caller.  An empty key is stored, but adds no bearer
    header, unlike [setApiKey] with the empty key. *)
Theorem constructor_apiKey (headers : gmap jsstring jsstring) (key : jsstring) :
  (key ≠ [] → constructor (Some key) headers = setApiKey key (constructor None headers)) ∧
  (key ≠ [] →
     defaultHeaders (constructor (Some key) headers) !! js "Authorization"
     = Some (js "Bearer " ++ key)) ∧
  apiKey (constructor (Some (js "")) headers) = Some (js "") ∧
  defaultHeaders (constructor (Some (js "")) headers) !! js "Authorization"
    = headers !! js "Authorization" ∧
  defaultHeaders (setApiKey (js "") (constructor None headers)) !! js "Authorization"
    = Some (js "Bearer ").
Proof.
  assert (Htruthy : key ≠ [] → ToBoolean (VStr key) = true).
  { intros Hk. cbn [ToBoolean]. by rewrite bool_decide_eq_false_2. }
  split_and!.
  - intros Hk. unfold constructor, setApiKey. by rewrite (Htruthy Hk).
  - intros Hk. unfold constructor. rewrite (Htruthy Hk).
    cbn [defaultHeaders]. apply lookup_insert_eq.
  - reflexivity.
  - change (defaultHeaders (constructor (Some (js "")) headers))
      with (headers ∪ builtinHeaders).
    destruct (headers !! js "Authorization") as [v|] eqn:Hv.
    + by apply lookup_union_Some_l.
    + rewrite lookup_union_r by exact Hv. vm_compute. reflexivity.
  - unfold setApiKey. cbn [defaultHeaders]. apply lookup_insert_eq.
Qed.

(** X11: whatever setters are called on a constructed client, its base URL
    stays the fixed service URL, its agent stays the one that does not
    reject unauthorized certificates, the five built-in headers stay
    present, and a stored non-empty key has an Authorization header. *)
Theorem reachable_invariant (this : Client) :
  reachable this →
  baseUrl this = js "https://solar.furtrack.com" ∧
  agent this = agent (constructor None ∅) ∧
  Fetch.rejectUnauthorized (agent this) = false ∧
  (∀ name, name ∈ [js "User-Agent"; js "Accept"; js "Referer"; js "Origin";
                   js "Accept-Language"] →
     is_Some (defaultHeaders this !! name)) ∧
  (∀ key, apiKey this = Some key → key ≠ [] →
     is_Some (defaultHeaders this !! js "Authorization")).
Proof.
  induction 1 as [key headers | key this _ IH | headers this _ IH].
  - split_and!; try reflexivity.
    + intros name Hin. apply builtinHeaders_dom in Hin.
      assert (is_Some ((headers ∪ builtinHeaders) !! name)) as Hm.
      { apply lookup_union_is_Some. by right. }
      cbn [constructor defaultHeaders].
      destruct key as [k|]; [| exact Hm].
      destruct (ToBoolean (VStr k)); [| exact Hm].
      rewrite lookup_insert_is_Some. destruct (decide (js "Authorization" = name)); auto.
    + intros k Hk Hne. cbn [constructor apiKey] in Hk. subst key.
      cbn [constructor defaultHeaders ToBoolean]. rewrite bool_decide_eq_false_2 by done.
      cbn [negb]. rewrite lookup_insert_eq. by eexists.
  - destruct IH as (Hb & Ha & Hr & Hh & Hk). split_and!; try done.
    + intros name Hin. cbn [setApiKey defaultHeaders].
      rewrite lookup_insert_is_Some. destruct (decide (js "Authorization" = name)); auto.
    + intros k _ _. cbn [setApiKey defaultHeaders]. rewrite lookup_insert_eq. by eexists.
  - destruct IH as (Hb & Ha & Hr & Hh & Hk). split_and!; try done.
    + intros name Hin. cbn [setHeaders defaultHeaders].
      apply lookup_union_is_Some. right. by apply Hh.
    + intros k Hkey Hne. cbn [setHeaders defaultHeaders apiKey] in *.
      apply lookup_union_is_Some. right. by apply (Hk k).
Qed.

(** ** Requests *)

Lemma bind_Return {A : Type} (c : completion A) : c ≫= Return = c.
Proof. by destruct c. Qed.

(** Every call either fails on an argument before it requests anything,
    or sends the one request of its path and post-processes what
    [fetchJSON] makes of the answer. *)
Lemma perform_cases this (c : call) log :
  (∃ e, ∀ service', perform service' this c log = (Throw e, log)) ∨
  (∃ path (k : JS.value → completion JS.value),
     js "/" `prefix_of` path ∧
     ∀ service', perform service' this c log =
       (outcome service' (request_of this path no_options) ≫= k,
        log ++ [request_of this path no_options])).
Proof.
  destruct c as [tag|username|postId|tag page|username page|username page|postId
                |username albumId page]; cbn [perform].
  - destruct (encodeURIComponent tag) as [t|e] eqn:E.
    + right. exists (js "/get/index/" ++ t), Return. split; [by eexists |].
      intros service'. by rewrite (getTag_run _ _ _ _ _ E), bind_Return.
    + left. exists e. intros service'. by apply getTag_throw.
  - destruct (encodeURIComponent username) as [u|e] eqn:E.
    + right. exists (js "/get/u/" ++ u), Return. split; [by eexists |].
      intros service'. by rewrite (getUser_run _ _ _ _ _ E), bind_Return.
    + left. exists e. intros service'. by apply getUser_throw.
  - destruct (encodeURIComponent postId) as [p|e] eqn:E.
    + right. exists (js "/view/post/" ++ p), Return. split; [by eexists |].
      intros service'. by rewrite (getPost_run _ _ _ _ _ E), bind_Return.
    + left. exists e. intros service'. by apply getPost_throw.
  - destruct (encodeURIComponent tag) as [t|e] eqn:E.
    + right. exists (js "/get/tag/" ++ t ++ pageSegment (default 0%Z page)), postsOrEmpty.
      split; [by eexists |]. intros service'. by rewrite (getPostsByTag_run _ _ _ _ _ _ E).
    + left. exists e. intros service'. by apply getPostsByTag_throw.
  - destruct (encodeURIComponent username) as [u|e] eqn:E.
    + right. exists (js "/view/album/" ++ u ++ js "/3" ++ pageSegment (default 0%Z page)),
        postsOrEmpty.
      split; [by eexists |]. intros service'. by rewrite (getPostsByUser_run _ _ _ _ _ _ E).
    + left. exists e. intros service'. by apply getPostsByUser_throw.
  - destruct (encodeURIComponent username) as [u|e] eqn:E.
    + right. exists (js "/view/album/" ++ u ++ js "/o" ++ pageSegment (default 0%Z page)),
        postsOrEmpty.
      split; [by eexists |]. intros service'. by rewrite (getLikes_run _ _ _ _ _ _ E).
    + left. exists e. intros service'. by apply getLikes_throw.
  - destruct (encodeURIComponent postId) as [p|e] eqn:E.
    + right. exists (js "/view/post/" ++ p),
        (fun postData => url ← thumbnailUrl postData; Return (VStr url)).
      split; [by eexists |]. intros service'.
      unfold mbind at 1. unfold Fetch.io_bind. rewrite (getThumbnail_run _ _ _ _ _ E).
      destruct (outcome service' _) as [v|x]; [| reflexivity].
      cbn [mbind completion_bind]. by destruct (thumbnailUrl v).
    + left. exists e. intros service'.
      unfold mbind at 1. unfold Fetch.io_bind. by rewrite (getThumbnail_throw _ _ _ _ _ E).
  - destruct (encodeURIComponent username) as [u|e] eqn:Eu.
    + destruct (encodeURIComponent albumId) as [a|e] eqn:Ea.
      * right. exists (js "/view/album/" ++ u ++ js "/" ++ a ++ pageSegment (default 0%Z page)),
          Return.
        split; [by eexists |]. intros service'.
        by rewrite (getAlbum_run _ _ _ _ _ _ _ _ Eu Ea), bind_Return.
      * left. exists e. intros service'. by apply (getAlbum_throw_albumId _ _ _ _ _ u).
    + left. exists e. intros service'. by apply getAlbum_throw_username.
Qed.

(** X12: every request of every network method is a GET that carries the
    client's current headers and agent, to a URL made of the client's base
    URL and a path that starts with "/"; so after [setApiKey], every
    request carries the bearer header of the new key. *)
Theorem requests_carry_configuration service this (c : call) log req :
  req ∈ snd (perform service this c log) →
  req ∈ log ∨
  (Fetch.method (Fetch.init req) = js "GET" ∧
   Fetch.headers (Fetch.init req) = defaultHeaders this ∧
   Fetch.agent (Fetch.init req) = agent this ∧
   (baseUrl this ++ js "/") `prefix_of` Fetch.url req ∧
   (∀ key this', this = setApiKey key this' →
      Fetch.headers (Fetch.init req) !! js "Authorization" = Some (js "Bearer " ++ key))).
Proof.
  destruct (perform_cases this c log) as [(e & H) | (path & k & [rest ->] & H)];
    rewrite (H service); cbn [snd]; intros Hin; [by left |].
  apply elem_of_app in Hin as [Hin | Hin]; [by left |].
  apply list_elem_of_singleton in Hin as ->. right.
  cbn [request_of Fetch.init Fetch.url Fetch.method Fetch.headers Fetch.agent
       no_options opt_method opt_agent opt_headers].
  split_and!; try reflexivity.
  - exists rest. by rewrite <- app_assoc.
  - intros key this' ->. cbn [setApiKey defaultHeaders]. apply lookup_insert_eq.
Qed.

(** X13: a call sends at most one request and keeps the log it started
    from; it sends none only when it fails on an argument; and the requests
    it sends do not depend on what the service answers, so nothing is
    retried or followed up. *)
Theorem at_most_one_request service this (c : call) log :
  (∃ reqs, snd (perform service this c log) = log ++ reqs ∧
           (length reqs ≤ 1)%nat ∧
           (reqs = [] → ∃ e, fst (perform service this c log) = Throw e)) ∧
  (∀ service', snd (perform service' this c log) = snd (perform service this c log)).
Proof.
  destruct (perform_cases this c log) as [(e & H) | (path & k & _ & H)].
  - split.
    + exists []. rewrite (H service), app_nil_r. split_and!; [done | cbn; lia |].
      intros _. by exists e.
    + intros service'. by rewrite !H.
  - split.
    + exists [request_of this path no_options]. rewrite (H service).
      split_and!; [done | cbn; lia | discriminate].
    + intros service'. by rewrite !H.
Qed.

(** X14: failures of the exchange reach the caller unchanged: when the
    service rejects the request, the call fails with the same rejection,
    and when a successful response has a body that is not JSON, the call
    fails with the [SyntaxError] of the decoding. *)
Theorem exchange_failures_propagate this (c : call) log (e : exn) (status : Z) :
  (snd (perform (rejecting e) this c log) ≠ log →
     fst (perform (rejecting e) this c log) = Throw e) ∧
  ((200 <= status <= 299)%Z →
     let res := {| Fetch.status := status; Fetch.body := None |} in
     snd (perform (always res) this c log) ≠ log →
     fst (perform (always res) this c log) = Throw SyntaxError).
Proof.
  split.
  - destruct (perform_cases this c log) as [(x & H) | (path & k & _ & H)];
      rewrite (H (rejecting e)); cbn [fst snd]; [done |]. intros _. reflexivity.
  - intros Hst res.
    destruct (perform_cases this c log) as [(x & H) | (path & k & _ & H)];
      rewrite (H (always res)); cbn [fst snd]; [done |]. intros _.
    rewrite outcome_always. unfold Fetch.ok, res. cbn [Fetch.status].
    replace (200 <=? status)%Z with true by (symmetry; apply Z.leb_le; lia).
    replace (status <=? 299)%Z with true by (symmetry; apply Z.leb_le; lia).
    reflexivity.
Qed.

(** X15: [getTag], [getUser], [getPost] and [getAlbum] return the decoded
    body of a successful response as it is, whatever value it is; nothing
    is unwrapped or defaulted. *)
Theorem body_returned_verbatim this (x y : JS.value) (ex ey : jsstring)
        (page : option Z) log (body : JS.value) :
  encodeURIComponent x = Return ex →
  encodeURIComponent y = Return ey →
  fst (getTag (always (ok_json body)) this x log) = Return body ∧
  fst (getUser (always (ok_json body)) this x log) = Return body ∧
  fst (getPost (always (ok_json body)) this x log) = Return body ∧
  fst (getAlbum (always (ok_json body)) this x y page log) = Return body.
Proof.
  intros Hx Hy.
  rewrite (getTag_run _ _ _ _ _ Hx), (getUser_run _ _ _ _ _ Hx),
    (getPost_run _ _ _ _ _ Hx), (getAlbum_run _ _ _ _ _ _ _ _ Hx Hy).
  done.
Qed.

(** X16: a [headers] entry in the options of [fetchJSON] replaces the
    client's headers as a whole: the request carries exactly the given
    headers, so the bearer header of the client is sent only if the options
    repeat it.  Without a [method] entry the request is a GET. *)
Theorem fetchJSON_options_replace_headers
        (service : Fetch.Request → completion Fetch.Response) (this : Client)
        (path : jsstring)
        (h : gmap jsstring jsstring) (m : option jsstring) (a : option Fetch.Agent)
        (log : list Fetch.Request) :
  ∃ req,
    snd (fetchJSON service this path
           {| opt_method := m; opt_agent := a; opt_headers := Some h |} log)
      = log ++ [req] ∧
    Fetch.url req = baseUrl this ++ path ∧
    Fetch.headers (Fetch.init req) = h ∧
    (h !! js "Authorization" = None →
       Fetch.headers (Fetch.init req) !! js "Authorization" = None) ∧
    (m = None → Fetch.method (Fetch.init req) = js "GET") ∧
    (∀ verb, m = Some verb → Fetch.method (Fetch.init req) = verb).
Proof.
  eexists. rewrite fetchJSON_run. cbn [snd]. split; [reflexivity |].
  cbn [request_of Fetch.url Fetch.init Fetch.headers Fetch.method opt_headers opt_method].
  split_and!; try done.
  - by intros ->.
  - by intros verb ->.
Qed.

Lemma io_bind_run {A B : Type} (c : Fetch.io A) (k : A → Fetch.io B) log :
  (c ≫= k) log =
  match c log with
  | (Return a, log') => k a log'
  | (Throw e, log') => (Throw e, log')
  end.
Proof. reflexivity. Qed.

(** X17: the by-user and the likes listings are albums with the reserved
    ids "3" and "o": [getPostsByUser] and [getLikes] send the request
    [getAlbum] sends for that id, and return its result with [posts]
    unwrapped. *)
Theorem listings_are_reserved_albums service this (username : JS.value)
        (page : option Z) log :
  getPostsByUser service this username page log
    = (response ← getAlbum service this username (VStr (js "3")) page;
       Fetch.lift (postsOrEmpty response)) log ∧
  getLikes service this username page log
    = (response ← getAlbum service this username (VStr (js "o")) page;
       Fetch.lift (postsOrEmpty response)) log.
Proof.
  rewrite !io_bind_run.
  destruct (encodeURIComponent username) as [u|e] eqn:Hu.
  - rewrite (getPostsByUser_run _ _ _ _ _ _ Hu), (getLikes_run _ _ _ _ _ _ Hu).
    rewrite (getAlbum_run _ _ _ (VStr (js "3")) _ u (js "3") _ Hu eq_refl).
    rewrite (getAlbum_run _ _ _ (VStr (js "o")) _ u (js "o") _ Hu eq_refl).
    cbv zeta.
    split; (destruct (outcome service _) as [v|x]; reflexivity).
  - rewrite (getPostsByUser_throw _ _ _ _ _ _ Hu), (getLikes_throw _ _ _ _ _ _ Hu).
    by rewrite !(getAlbum_throw_username _ _ _ _ _ _ _ Hu).
Qed.

(** ** Body shapes *)

(** X18: a list-fetch method fails with a [TypeError] when the body of the
    successful response is [null]; for every other body it returns a
    value, the empty array when the body is not an object, and the value
    it returns is never falsy. *)
Theorem list_fetch_body_shapes op this arg page seg log (body : JS.value) :
  op ∈ list_fetch →
  encodeURIComponent arg = Return seg →
  (body = VNull → fst (op (always (ok_json body)) this arg page log) = Throw TypeError) ∧
  (body ≠ VNull → body ≠ VUndefined →
     ∃ v, fst (op (always (ok_json body)) this arg page log) = Return v ∧
          ToBoolean v = true) ∧
  ((∀ props, body ≠ VObj props) → body ≠ VNull → body ≠ VUndefined →
     fst (op (always (ok_json body)) this arg page log) = Return (VArr [])).
Proof.
  intros Hop Harg. rewrite (list_fetch_run _ _ _ _ _ _ _ Hop Harg).
  unfold postsOrEmpty. split_and!.
  - by intros ->.
  - intros Hn Hu.
    destruct body as [| |b|z|s|l|props]; try done; cbn [Get mbind completion_bind];
      try (by eexists).
    destruct (ToBoolean (default VUndefined (lookup_prop (js "posts") props))) eqn:E;
      eexists; split; try reflexivity; done.
  - intros Hobj Hn Hu. destruct body as [| |b|z|s|l|props]; try done.
    by destruct (Hobj props).
Qed.

(** ** Thumbnail edge cases *)

Lemma ToString_primitive (v : JS.value) :
  primitive v = true → ∃ s, ToString v = Return s.
Proof.
  destruct v as [| |[]|z|s|l|props]; try discriminate; intros _; by eexists.
Qed.

(** X19: [getThumbnail] does not check the post it formats.  A post object
    without the four fields gives the template with "undefined" in each
    place; fields that are absent or not objects always give a URL on the
    gallery host; and a [null] body gives a [TypeError]. *)
Theorem getThumbnail_unchecked this postId p log (props : list (jsstring * JS.value)) :
  encodeURIComponent postId = Return p →
  (lookup_prop (js "submitUserId") props = None →
   lookup_prop (js "id") props = None →
   lookup_prop (js "metaFingerprint") props = None →
   lookup_prop (js "metaFiletype") props = None →
     fst (getThumbnail (always (ok_json (VObj props))) this postId log)
     = Return (js "https://orca2.furtrack.com/gallery/undefined/undefined-undefined.undefined")) ∧
  ((∀ name v, lookup_prop name props = Some v → primitive v = true) →
     ∃ rest, fst (getThumbnail (always (ok_json (VObj props))) this postId log)
             = Return (js "https://orca2.furtrack.com/gallery/" ++ rest)) ∧
  fst (getThumbnail (always (ok_json VNull)) this postId log) = Throw TypeError.
Proof.
  intros Hp. rewrite !(getThumbnail_ok _ _ _ _ _ Hp). split_and!.
  - intros H1 H2 H3 H4. unfold thumbnailUrl, Get. by rewrite H1, H2, H3, H4.
  - intros Hprim.
    assert (Hfield : ∀ name, ∃ s,
              ToString (default VUndefined (lookup_prop name props)) = Return s).
    { intros name. destruct (lookup_prop name props) as [v|] eqn:E; [| by eexists].
      apply ToString_primitive. by apply (Hprim name). }
    unfold thumbnailUrl, Get. cbn [mbind completion_bind].
    destruct (Hfield (js "submitUserId")) as [s1 ->].
    destruct (Hfield (js "id")) as [s2 ->].
    destruct (Hfield (js "metaFingerprint")) as [s3 ->].
    destruct (Hfield (js "metaFiletype")) as [s4 ->].
    cbn [mbind completion_bind]. eexists. reflexivity.
  - reflexivity.
Qed.

(** ** More on percent-encoding *)

Lemma Encode_cons_unescaped (c : N) (r : jsstring) :
  uriUnescaped c = true →
  Encode uriUnescaped (c :: r) = e ← Encode uriUnescaped r; Return (c :: e).
Proof. intros H. cbn [Encode]. by rewrite H. Qed.

Lemma Encode_cons_escaped (c : N) (r : jsstring) :
  uriUnescaped c = false → is_trailing_surrogate c = false →
  is_leading_surrogate c = false →
  Encode uriUnescaped (c :: r)
  = e ← Encode uriUnescaped r; Return (escape_code_point c ++ e).
Proof. intros H Ht Hl. cbn [Encode]. by rewrite H, Ht, Hl. Qed.

Lemma Encode_unescaped (s : jsstring) :
  Forall (fun c => uriUnescaped c = true) s → Encode uriUnescaped s = Return s.
Proof.
  induction 1 as [|c r Hc _ IH]; [reflexivity |].
  by rewrite Encode_cons_unescaped, IH.
Qed.

Lemma escape_code_point_length (cp : N) :
  (3 ≤ length (escape_code_point cp))%nat.
Proof.
  unfold escape_code_point, utf8_octets.
  destruct (cp <? 0x80); [cbn; lia |].
  destruct (cp <? 0x800); [cbn; lia |].
  destruct (cp <? 0x10000); cbn; lia.
Qed.

(** The encoding is at least as long as the string, and as long only when
    nothing was escaped. *)
Lemma Encode_length (n : nat) (s e : jsstring) :
  (length s ≤ n)%nat →
  Encode uriUnescaped s = Return e →
  (length s ≤ length e)%nat ∧
  (length e = length s → Forall (fun c => uriUnescaped c = true) s).
Proof.
  revert s e. induction n as [|n IH]; intros s e Hlen He.
  { destruct s; [| cbn in Hlen; lia]. cbn in He. injection He as <-. by split. }
  destruct s as [|c rest]; [cbn in He; injection He as <-; by split |].
  cbn [length] in Hlen. cbn [Encode] in He.
  destruct (uriUnescaped c) eqn:Hu.
  { destruct (Encode uriUnescaped rest) as [r|x] eqn:Hr; [| discriminate He].
    cbn in He. injection He as <-.
    destruct (IH rest r ltac:(lia) Hr) as [Hle Heq]. cbn [length]. split; [lia |].
    intros H. constructor; [exact Hu | apply Heq; lia]. }
  destruct (is_trailing_surrogate c); [discriminate He |].
  destruct (is_leading_surrogate c).
  - destruct rest as [|d rest']; [discriminate He |].
    destruct (is_trailing_surrogate d); [| discriminate He].
    destruct (Encode uriUnescaped rest') as [r|x] eqn:Hr; [| discriminate He].
    cbn in He. injection He as <-. cbn [length] in Hlen.
    destruct (IH rest' r ltac:(lia) Hr) as [Hle _].
    pose proof (escape_code_point_length ((c - 0xD800) * 0x400 + (d - 0xDC00) + 0x10000)).
    rewrite length_app. cbn [length]. split; lia.
  - destruct (Encode uriUnescaped rest) as [r|x] eqn:Hr; [| discriminate He].
    cbn in He. injection He as <-.
    destruct (IH rest r ltac:(lia) Hr) as [Hle _].
    pose proof (escape_code_point_length c).
    rewrite length_app. cbn [length]. split; lia.
Qed.

(** X20: a segment is sent exactly as given if and only if each of its
    characters is a letter, a digit or one of [-_.!~*'()]; such a tag or
    username appears in the requested URL unchanged. *)
Theorem segment_sent_verbatim service this (s : jsstring) :
  (encodeURIComponent (VStr s) = Return s ↔ Forall (fun c => uriUnescaped c = true) s) ∧
  (Forall (fun c => uriUnescaped c = true) s →
     requested (getTag service this (VStr s)) = [baseUrl this ++ js "/get/index/" ++ s] ∧
     requested (getUser service this (VStr s)) = [baseUrl this ++ js "/get/u/" ++ s] ∧
     requested (getPost service this (VStr s)) = [baseUrl this ++ js "/view/post/" ++ s]).
Proof.
  assert (Hid : Forall (fun c => uriUnescaped c = true) s →
                encodeURIComponent (VStr s) = Return s).
  { intros H. unfold encodeURIComponent. cbn [ToString mbind completion_bind].
    by apply Encode_unescaped. }
  split.
  - split; [| exact Hid]. unfold encodeURIComponent. cbn [ToString mbind completion_bind].
    intros H. by apply (Encode_length (length s) s s (le_n _) H).
  - intros H. specialize (Hid H). unfold requested.
    by rewrite (getTag_run _ _ _ _ _ Hid), (getUser_run _ _ _ _ _ Hid),
      (getPost_run _ _ _ _ _ Hid).
Qed.

Lemma uint_units_digits (d : Decimal.uint) :
  Forall (fun c => uriUnescaped c = true) (uint_units d).
Proof. induction d; cbn [uint_units]; constructor; done. Qed.

(** X21: a numeric post id is sent as its decimal numeral: for every
    integer of magnitude below 2^53, [getPost] and [getThumbnail] request
    the path "/view/post/" followed by the numeral, nothing being
    escaped. *)
Theorem numeric_id_sent_in_decimal service this (n : Z) :
  safe_integer n →
  encodeURIComponent (VNum n) = Return (NumberToString n) ∧
  requested (getPost service this (VNum n))
    = [baseUrl this ++ js "/view/post/" ++ NumberToString n] ∧
  requested (getThumbnail service this (VNum n))
    = [baseUrl this ++ js "/view/post/" ++ NumberToString n].
Proof.
  intros _.
  assert (H : encodeURIComponent (VNum n) = Return (NumberToString n)).
  { unfold encodeURIComponent. cbn [ToString mbind completion_bind].
    apply Encode_unescaped. destruct n as [|p|p]; cbn [NumberToString].
    - by repeat constructor.
    - apply uint_units_digits.
    - constructor; [done | apply uint_units_digits]. }
  split; [exact H |]. unfold requested.
  by rewrite (getPost_run _ _ _ _ _ H), (getThumbnail_run _ _ _ _ _ H).
Qed.

(** X22: the colon of a typed tag is escaped and its digit is not: when
    the value of a tag is sent as [e], the Character tag is sent as "1%3A"
    followed by [e], likewise for "2:", "3:" and "5:", and the Species tag
    as "6" followed by [e]. *)
Theorem typed_tag_segment service this (v e : jsstring) (page : option Z) :
  encodeURIComponent (VStr v) = Return e →
  encodeURIComponent (VStr (js "1:" ++ v)) = Return (js "1%3A" ++ e) ∧
  encodeURIComponent (VStr (js "2:" ++ v)) = Return (js "2%3A" ++ e) ∧
  encodeURIComponent (VStr (js "3:" ++ v)) = Return (js "3%3A" ++ e) ∧
  encodeURIComponent (VStr (js "5:" ++ v)) = Return (js "5%3A" ++ e) ∧
  encodeURIComponent (VStr (js "6" ++ v)) = Return (js "6" ++ e) ∧
  requested (getPostsByTag service this (VStr (js "1:" ++ v)) page)
    = [baseUrl this ++ js "/get/tag/" ++ js "1%3A" ++ e ++ pageSegment (default 0%Z page)].
Proof.
  unfold encodeURIComponent. cbn [ToString mbind completion_bind]. intros He.
  assert (H1 : Encode uriUnescaped (js "1:" ++ v) = Return (js "1%3A" ++ e)).
  { cbn [js app]. rewrite Encode_cons_unescaped, Encode_cons_escaped, He by reflexivity.
    reflexivity. }
  split_and!.
  - exact H1.
  - cbn [js app]. rewrite Encode_cons_unescaped, Encode_cons_escaped, He by reflexivity.
    reflexivity.
  - cbn [js app]. rewrite Encode_cons_unescaped, Encode_cons_escaped, He by reflexivity.
    reflexivity.
  - cbn [js app]. rewrite Encode_cons_unescaped, Encode_cons_escaped, He by reflexivity.
    reflexivity.
  - cbn [js app]. rewrite Encode_cons_unescaped, He by reflexivity. reflexivity.
  - unfold requested.
    rewrite (getPostsByTag_run _ _ (VStr (js "1:" ++ v)) _ (js "1%3A" ++ e) _ H1).
    cbv zeta. cbn [snd urls map app Fetch.url request_of]. by rewrite <- !app_assoc.
Qed.

(** ** Distinct arguments, distinct URLs *)

Lemma safe_no_slash (e : jsstring) :
  Forall (fun c => uriUnescaped c = true ∨ c = 37) e → 47 ∉ e.
Proof.
  intros H Hin. rewrite Forall_forall in H.
  destruct (H 47 Hin) as [Hu | Hp]; discriminate.
Qed.

Lemma split_at_slash (e1 e2 t1 t2 : jsstring) :
  47 ∉ e1 → 47 ∉ e2 →
  (t1 = [] ∨ ∃ r, t1 = 47 :: r) → (t2 = [] ∨ ∃ r, t2 = 47 :: r) →
  e1 ++ t1 = e2 ++ t2 → e1 = e2 ∧ t1 = t2.
Proof.
  revert e2. induction e1 as [|c e1 IH]; intros [|d e2] H1 H2 Ht1 Ht2 E; cbn [app] in E.
  - done.
  - exfalso. destruct Ht1 as [-> | [r ->]]; [discriminate E |].
    injection E as <- _. apply H2. left.
  - exfalso. destruct Ht2 as [-> | [r ->]]; [discriminate E |].
    injection E as -> _. apply H1. left.
  - injection E as -> E.
    destruct (IH e2) as [-> ->]; try done.
    + intros Hin. apply H1. by right.
    + intros Hin. apply H2. by right.
Qed.

Lemma pageSegment_shape (page : Z) :
  pageSegment page = [] ∨ ∃ r, pageSegment page = 47 :: r.
Proof. unfold pageSegment. destruct (0 <? page)%Z; [right; by eexists | by left]. Qed.

Lemma pageSegment_inj (p q : Z) :
  pageSegment p = pageSegment q → ((p <= 0)%Z ∧ (q <= 0)%Z) ∨ p = q.
Proof.
  unfold pageSegment.
  destruct (Z.ltb_spec 0 p) as [Hp|Hp], (Z.ltb_spec 0 q) as [Hq|Hq]; intros E.
  - right. injection E as E. by apply NumberToString_inj.
  - discriminate E.
  - discriminate E.
  - by left.
Qed.

Lemma percent_encoded_inj (s1 s2 e : jsstring) :
  percent_encoded s1 e → percent_encoded s2 e → s1 = s2.
Proof. intros (_ & _ & H1) (_ & _ & H2). congruence. Qed.

(** X23: requests do not collide.  When [getPostsByTag] requests the same
    URL for two tags, the tags are the same string and the pages are equal
    or both without a segment; when [getAlbum] requests the same URL twice,
    the usernames are the same and the album ids are the same, so a slash
    inside one argument is never taken for the boundary between two. *)
Theorem request_urls_injective service this (s1 s2 a1 a2 : jsstring) (p1 p2 : option Z) :
  Forall code_unit s1 → Forall code_unit s2 →
  Forall code_unit a1 → Forall code_unit a2 →
  isWellFormed s1 = true → isWellFormed a1 = true →
  (requested (getPostsByTag service this (VStr s1) p1)
   = requested (getPostsByTag service this (VStr s2) p2) →
     s1 = s2 ∧
     (((default 0 p1 <= 0)%Z ∧ (default 0 p2 <= 0)%Z) ∨ default 0%Z p1 = default 0%Z p2)) ∧
  (requested (getAlbum service this (VStr s1) (VStr a1) p1)
   = requested (getAlbum service this (VStr s2) (VStr a2) p2) →
     s1 = s2 ∧ a1 = a2 ∧
     (((default 0 p1 <= 0)%Z ∧ (default 0 p2 <= 0)%Z) ∨ default 0%Z p1 = default 0%Z p2)).
Proof.
  intros Hs1 Hs2 Ha1 Ha2 Hw1 Hwa1.
  destruct (encodeURIComponent_string s1 Hs1) as [Hg1 _].
  destruct (Hg1 Hw1) as [e1 He1].
  destruct (encodeURIComponent_string a1 Ha1) as [Hga1 _].
  destruct (Hga1 Hwa1) as [f1 Hf1].
  destruct (encodeURIComponent_string s2 Hs2) as [Hg2 Hb2].
  destruct (encodeURIComponent_string a2 Ha2) as [Hga2 Hba2].
  pose proof He1 as (Ee1 & Se1 & _). pose proof Hf1 as (Ef1 & Sf1 & _).
  unfold requested. split.
  - rewrite (getPostsByTag_run _ _ _ _ _ _ Ee1). cbv zeta.
    destruct (isWellFormed s2) eqn:Hw2.
    + destruct (Hg2 eq_refl) as [e2 He2]. pose proof He2 as (Ee2 & Se2 & _).
      rewrite (getPostsByTag_run _ _ _ _ _ _ Ee2). cbv zeta.
      cbn [snd urls map app Fetch.url request_of]. intros E.
      injection E as E. apply app_inv_head in E.
      apply (app_inv_head (js "/get/tag/")) in E.
      destruct (split_at_slash _ _ _ _ (safe_no_slash _ Se1) (safe_no_slash _ Se2)
                  (pageSegment_shape _) (pageSegment_shape _) E) as [-> Hseg].
      split; [exact (percent_encoded_inj _ _ _ He1 He2) | by apply pageSegment_inj].
    + rewrite (getPostsByTag_throw _ _ _ _ _ _ (Hb2 eq_refl)). discriminate.
  - rewrite (getAlbum_run _ _ _ _ _ _ _ _ Ee1 Ef1). cbv zeta.
    destruct (isWellFormed s2) eqn:Hw2;
      [| rewrite (getAlbum_throw_username _ _ _ _ _ _ _ (Hb2 eq_refl)); discriminate].
    destruct (Hg2 eq_refl) as [e2 He2]. pose proof He2 as (Ee2 & Se2 & _).
    destruct (isWellFormed a2) eqn:Hwa2;
      [| rewrite (getAlbum_throw_albumId _ _ _ _ _ _ _ _ Ee2 (Hba2 eq_refl)); discriminate].
    destruct (Hga2 eq_refl) as [f2 Hf2]. pose proof Hf2 as (Ef2 & Sf2 & _).
    rewrite (getAlbum_run _ _ _ _ _ _ _ _ Ee2 Ef2). cbv zeta.
    cbn [snd urls map app Fetch.url request_of]. intros E.
    injection E as E. apply app_inv_head in E.
    apply (app_inv_head (js "/view/album/")) in E.
    destruct (split_at_slash e1 e2 (js "/" ++ f1 ++ pageSegment (default 0%Z p1))
                (js "/" ++ f2 ++ pageSegment (default 0%Z p2))
                (safe_no_slash _ Se1) (safe_no_slash _ Se2)
                ltac:(right; by eexists) ltac:(right; by eexists) E) as [-> E'].
    apply (app_inv_head (js "/")) in E'.
    destruct (split_at_slash _ _ _ _ (safe_no_slash _ Sf1) (safe_no_slash _ Sf2)
                (pageSegment_shape _) (pageSegment_shape _) E') as [-> Hseg].
    split_and!; [exact (percent_encoded_inj _ _ _ He1 He2)
                | exact (percent_encoded_inj _ _ _ Hf1 Hf2) | by apply pageSegment_inj].
Qed.

(** * The further properties at concrete inputs *)

Lemma parseTag_unparse_witness :
  unparseTag (parseTag (js "6Wolf")) = js "6Wolf" ∧ js "6Wolf" = js "6Wolf".
Proof.
  destruct (parseTag_unparse (js "6Wolf")) as [H1 H2].
  split; [exact H1 | exact (H2 (js "6Wolf") eq_refl)].
Defined.

Lemma getTagsByType_partition_witness :
  getTagsByType [ {| tagName := js "1:Alpha" |}; {| tagName := js "random" |} ]
                (js "artist") = [].
Proof.
  destruct (getTagsByType_partition
              [ {| tagName := js "1:Alpha" |}; {| tagName := js "random" |} ]) as [_ H].
  apply H. intros Hin.
  repeat (apply elem_of_cons in Hin as [Hin | Hin]; [discriminate Hin |]).
  by apply elem_of_nil in Hin.
Defined.

Lemma getTagsByType_member_witness :
  js "Alpha" ∈ getTagsByType [ {| tagName := js "1:Alpha" |}; {| tagName := js "random" |} ]
                             TagTypes.Character.
Proof.
  destruct (getTagsByType_member
              [ {| tagName := js "1:Alpha" |}; {| tagName := js "random" |} ]
              (js "Alpha")) as [H _].
  apply (H (js "1:") TagTypes.Character).
  - unfold tagTypePrefixes. left.
  - left.
Defined.

Lemma setApiKey_last_wins_witness :
  defaultHeaders (setApiKey (js "k2") (constructor None ∅)) !! js "Accept"
    = defaultHeaders (constructor None ∅) !! js "Accept".
Proof.
  destruct (setApiKey_last_wins (constructor None ∅) (js "k2") (js "k3"))
    as (_ & _ & H & _).
  apply H. discriminate.
Defined.

Lemma setHeaders_over_bearer_witness :
  defaultHeaders (setHeaders {[ js "Authorization" := js "Basic abc" ]}
                             (setApiKey (js "k") (constructor None ∅)))
    !! js "Authorization" = Some (js "Basic abc") ∧
  defaultHeaders (setHeaders {[ js "X-Test" := js "foo" ]}
                             (setApiKey (js "k") (constructor None ∅)))
    !! js "Authorization" = Some (js "Bearer k").
Proof.
  split.
  - destruct (setHeaders_over_bearer (constructor None ∅) (js "k")
                {[ js "Authorization" := js "Basic abc" ]}) as (_ & H & _).
    apply H. reflexivity.
  - destruct (setHeaders_over_bearer (constructor None ∅) (js "k")
                {[ js "X-Test" := js "foo" ]}) as (_ & _ & H & _).
    apply H. reflexivity.
Defined.

Lemma constructor_headers_witness :
  defaultHeaders (constructor None {[ js "User-Agent" := js "MyCustomAgent/1.0" ]})
    !! js "User-Agent" = Some (js "MyCustomAgent/1.0") ∧
  defaultHeaders (constructor None {[ js "User-Agent" := js "MyCustomAgent/1.0" ]})
    !! js "Origin" = builtinHeaders !! js "Origin".
Proof.
  split.
  - destruct (constructor_headers {[ js "User-Agent" := js "MyCustomAgent/1.0" ]}
                (js "User-Agent")) as (H & _).
    apply H. reflexivity.
  - destruct (constructor_headers {[ js "User-Agent" := js "MyCustomAgent/1.0" ]}
                (js "Origin")) as (_ & H & _).
    apply H. reflexivity.
Defined.

Lemma constructor_apiKey_witness :
  constructor (Some (js "abc123")) ∅ = setApiKey (js "abc123") (constructor None ∅).
Proof.
  destruct (constructor_apiKey ∅ (js "abc123")) as (H & _).
  apply H. discriminate.
Defined.

Lemma reachable_invariant_witness :
  is_Some (defaultHeaders (setHeaders {[ js "X-Test" := js "foo" ]}
                                      (setApiKey (js "k") (constructor None ∅)))
             !! js "Authorization") ∧
  is_Some (defaultHeaders (setHeaders {[ js "X-Test" := js "foo" ]}
                                      (setApiKey (js "k") (constructor None ∅)))
             !! js "Referer").
Proof.
  destruct (reachable_invariant
              (setHeaders {[ js "X-Test" := js "foo" ]}
                          (setApiKey (js "k") (constructor None ∅))))
    as (_ & _ & _ & Hh & Hk).
  { apply reachable_setHeaders, reachable_setApiKey, reachable_constructor. }
  split.
  - apply (Hk (js "k")); [reflexivity | discriminate].
  - apply Hh. do 2 right. left.
Defined.

Lemma requests_carry_configuration_witness :
  Fetch.headers
    (Fetch.init (request_of (setApiKey (js "k") (constructor None ∅))
                            (js "/get/u/bob") no_options))
    !! js "Authorization" = Some (js "Bearer k").
Proof.
  destruct (requests_carry_configuration
              (always (ok_json (VObj []))) (setApiKey (js "k") (constructor None ∅))
              (GetUser (VStr (js "bob"))) []
              (request_of (setApiKey (js "k") (constructor None ∅))
                          (js "/get/u/bob") no_options))
    as [Hin | (_ & _ & _ & _ & H)].
  - cbn [perform].
    rewrite (getUser_run _ _ (VStr (js "bob")) (js "bob") [] eq_refl). left.
  - by apply elem_of_nil in Hin.
  - exact (H (js "k") (constructor None ∅) eq_refl).
Defined.

Lemma at_most_one_request_witness :
  ∃ e, fst (perform (always (ok_json (VObj []))) (constructor None ∅)
                    (GetTag (VStr [0xD800])) []) = Throw e.
Proof.
  destruct (at_most_one_request (always (ok_json (VObj []))) (constructor None ∅)
              (GetTag (VStr [0xD800])) []) as [(reqs & Hsnd & _ & Hnone) _].
  apply Hnone.
  cbn [perform] in Hsnd.
  rewrite (getTag_throw _ _ (VStr [0xD800]) URIError [] eq_refl) in Hsnd.
  symmetry. exact Hsnd.
Defined.

Lemma exchange_failures_propagate_witness :
  fst (perform (rejecting TypeError) (constructor None ∅) (GetUser (VStr (js "bob"))) [])
    = Throw TypeError ∧
  fst (perform (always {| Fetch.status := 204; Fetch.body := None |}) (constructor None ∅)
               (GetUser (VStr (js "bob"))) [])
    = Throw SyntaxError.
Proof.
  destruct (exchange_failures_propagate (constructor None ∅) (GetUser (VStr (js "bob")))
              [] TypeError 204) as [H1 H2].
  split.
  - apply H1. cbn [perform].
    rewrite (getUser_run _ _ (VStr (js "bob")) (js "bob") [] eq_refl). discriminate.
  - apply H2; [lia |]. cbn [perform].
    rewrite (getUser_run _ _ (VStr (js "bob")) (js "bob") [] eq_refl). discriminate.
Defined.

Lemma body_returned_verbatim_witness :
  fst (getUser (always (ok_json VNull)) (constructor None ∅) (VStr (js "bob")) [])
    = Return VNull.
Proof.
  destruct (body_returned_verbatim (constructor None ∅) (VStr (js "bob"))
              (VStr (js "album")) (js "bob") (js "album") None [] VNull eq_refl eq_refl)
    as (_ & H & _).
  exact H.
Defined.

Lemma fetchJSON_options_replace_headers_witness :
  ∃ req,
    snd (fetchJSON (always (ok_json (VObj []))) (setApiKey (js "k") (constructor None ∅))
                   (js "/get/u/bob")
                   {| opt_method := None; opt_agent := None; opt_headers := Some ∅ |} [])
      = [req] ∧
    Fetch.headers (Fetch.init req) !! js "Authorization" = None ∧
    Fetch.method (Fetch.init req) = js "GET".
Proof.
  destruct (fetchJSON_options_replace_headers
              (always (ok_json (VObj []))) (setApiKey (js "k") (constructor None ∅))
              (js "/get/u/bob") ∅ None None [])
    as (req & Hsnd & _ & _ & Hauth & Hget & _).
  exists req. split_and!; [exact Hsnd | apply Hauth; reflexivity | apply Hget; reflexivity].
Defined.

Lemma list_fetch_body_shapes_witness :
  fst (getPostsByTag (always (ok_json VNull)) (constructor None ∅) (VStr (js "foo")) None [])
    = Throw TypeError ∧
  fst (getPostsByTag (always (ok_json (VArr [VNum 1]))) (constructor None ∅)
                     (VStr (js "foo")) None [])
    = Return (VArr []).
Proof.
  split.
  - destruct (list_fetch_body_shapes getPostsByTag (constructor None ∅) (VStr (js "foo"))
                None (js "foo") [] VNull getPostsByTag_in_list_fetch eq_refl) as (H & _).
    apply H. reflexivity.
  - destruct (list_fetch_body_shapes getPostsByTag (constructor None ∅) (VStr (js "foo"))
                None (js "foo") [] (VArr [VNum 1]) getPostsByTag_in_list_fetch eq_refl)
      as (_ & _ & H).
    apply H; discriminate.
Defined.

Lemma getThumbnail_unchecked_witness :
  fst (getThumbnail (always (ok_json (VObj [(js "error", VStr (js "not found"))])))
                    (constructor None ∅) (VNum 7) [])
    = Return (js "https://orca2.furtrack.com/gallery/undefined/undefined-undefined.undefined").
Proof.
  destruct (getThumbnail_unchecked (constructor None ∅) (VNum 7) (js "7") []
              [(js "error", VStr (js "not found"))] eq_refl) as (H & _).
  apply H; reflexivity.
Defined.

Lemma segment_sent_verbatim_witness :
  requested (getUser (always (ok_json (VObj []))) (constructor None ∅) (VStr (js "bob_01")))
    = [js "https://solar.furtrack.com/get/u/bob_01"].
Proof.
  destruct (segment_sent_verbatim (always (ok_json (VObj []))) (constructor None ∅)
              (js "bob_01")) as [_ H].
  destruct H as (_ & H & _); [by repeat constructor | exact H].
Defined.

Lemma typed_tag_segment_witness :
  requested (getPostsByTag (always (ok_json (VObj []))) (constructor None ∅)
                           (VStr (js "1:Fluffy")) (Some 2%Z))
    = [js "https://solar.furtrack.com/get/tag/1%3AFluffy/2"].
Proof.
  destruct (typed_tag_segment (always (ok_json (VObj []))) (constructor None ∅)
              (js "Fluffy") (js "Fluffy") (Some 2%Z) eq_refl) as (_ & _ & _ & _ & _ & H).
  exact H.
Defined.

Lemma request_urls_injective_witness :
  js "a/b" = js "a/b" ∧ js "c" = js "c".
Proof.
  assert (Hab : Forall code_unit (js "a/b")) by (repeat constructor).
  assert (Hc : Forall code_unit (js "c")) by (repeat constructor).
  destruct (request_urls_injective (always (ok_json (VObj []))) (constructor None ∅)
              (js "a/b") (js "a/b") (js "c") (js "c") (Some 1%Z) (Some 1%Z)
              Hab Hab Hc Hc eq_refl eq_refl) as [_ H].
  destruct (H eq_refl) as (H1 & H2 & _). split; [exact H1 | exact H2].
Defined.

Lemma numeric_id_sent_in_decimal_witness :
  requested (getPost (always (ok_json (VObj []))) (constructor None ∅) (VNum 1337))
    = [js "https://solar.furtrack.com/view/post/1337"].
Proof.
  assert (Hsafe : safe_integer 1337) by (split; reflexivity).
  destruct (numeric_id_sent_in_decimal (always (ok_json (VObj []))) (constructor None ∅)
              1337%Z Hsafe) as (_ & H & _).
  exact H.
Defined.
